(** * couscous: clips, read heads and the playback device

    A shallow embedding of [audio/clip.py], [audio/player/readhead.py] and,
    from [audio/io/mixer.py], the [Device.device] property and the tone
    generator [fill] with its callback.

    Conventions of the embedding.
    - Python numbers (the [float] position, speed and samples, and the [int]
      values they are combined with) are rationals [Q]; a double is the
      rational it denotes, and numeric equality is [==] ([Qeq]).
      Infinities, NaN and the sign of zero are not modelled.
    - Arithmetic on doubles is written twice.  [Module ReadHead] has the
      methods in exact arithmetic; statements about it concern the
      structure of the code (faults, order of effects, what is assigned) or
      values on which doubles compute exactly.  [Module Float64] has the
      same methods with every operation on doubles rounded by [round64] to
      the nearest binary64 value, and [%] as CPython computes it; statements
      that depend on how a double rounds are about it.
    - Python [int] attributes are [Z].
    - A method that mutates [self] and may raise is a computation in the
      state-and-exception monad [M]: the state reached when the exception is
      raised is kept, as Python keeps the attributes assigned before the
      fault.
    - numpy arrays are lists; numpy indexing (negative indices count from the
      end, anything else out of range raises [IndexError]) is written out in
      [numpy_index]. *)

From Stdlib Require Import ZArith QArith Qround Qabs Qpower List String Bool.
From Stdlib Require Import Lia Lqa.
Import ListNotations.

Local Open Scope Z_scope.

(** ** Exceptions, results and the monad of methods *)

Inductive exn : Type :=
| ZeroDivisionError
| IndexError
| ValueError (msg : string).

Inductive result (A : Type) : Type :=
| Ok (a : A)
| Raise (e : exn).

Arguments Ok {A} a.
Arguments Raise {A} e.

Definition M (S A : Type) : Type := S -> S * result A.

Definition ret {S A} (a : A) : M S A := fun s => (s, Ok a).

Definition bind {S A B} (m : M S A) (k : A -> M S B) : M S B :=
  fun s =>
    match m s with
    | (s', Ok a) => k a s'
    | (s', Raise e) => (s', Raise e)
    end.

Definition get {S} : M S S := fun s => (s, Ok s).

Definition modify {S} (f : S -> S) : M S unit := fun s => (f s, Ok tt).

Definition lift {S A} (r : result A) : M S A := fun s => (s, r).

Declare Scope method_scope.
Delimit Scope method_scope with method.

Notation "x <- m ;; k" := (bind m (fun x => k))
  (at level 61, m at next level, right associativity) : method_scope.
Notation "m ;; k" := (bind m (fun _ => k))
  (at level 61, right associativity) : method_scope.

(** ** Python and numpy primitives *)

(** [x / y] on numbers (true division): [ZeroDivisionError] on a zero
    divisor. *)
Definition truediv (x y : Q) : result Q :=
  if Qeq_bool y 0 then Raise ZeroDivisionError else Ok (x / y)%Q.

(** [x % y] on numbers: [ZeroDivisionError] on a zero divisor, otherwise the
    remainder of the floored division, which takes the sign of [y]. *)
Definition pymod (x y : Q) : result Q :=
  if Qeq_bool y 0 then Raise ZeroDivisionError
  else Ok (x - y * inject_Z (Qfloor (x / y)))%Q.

(** [a % b] on ints. *)
Definition pymod_int (a b : Z) : result Z :=
  if b =? 0 then Raise ZeroDivisionError else Ok (a mod b).

(** [int(x)]: truncation towards zero. *)
Definition py_int (x : Q) : Z := Z.quot (Qnum x) (Zpos (Qden x)).

(** [a[i]] on the first axis of a numpy array. *)
Definition numpy_index {A} (a : list A) (i : Z) : result A :=
  let n := Z.of_nat (List.length a) in
  let j := if i <? 0 then i + n else i in
  if (0 <=? j) && (j <? n) then
    match nth_error a (Z.to_nat j) with
    | Some x => Ok x
    | None => Raise IndexError
    end
  else Raise IndexError.

(** [numpy.zeros(n, dtype=float64)]. *)
Definition numpy_zeros (n : Z) : result (list Q) :=
  if n <? 0 then Raise (ValueError "negative dimensions are not allowed")
  else Ok (repeat 0%Q (Z.to_nat n)).

(** [numpy.zeros((rows, cols), dtype=float64)]. *)
Definition numpy_zeros2 (rows cols : Z) : result (list (list Q)) :=
  if (rows <? 0) || (cols <? 0)
  then Raise (ValueError "negative dimensions are not allowed")
  else Ok (repeat (repeat 0%Q (Z.to_nat cols)) (Z.to_nat rows)).

(** [a[i] = v] for an index [i] produced by [range(len(a))]. *)
Fixpoint numpy_store {A} (a : list A) (i : nat) (v : A) : list A :=
  match a, i with
  | [], _ => []
  | _ :: rest, O => v :: rest
  | x :: rest, S i' => x :: numpy_store rest i' v
  end.

(** ** audio/clip.py *)

Module Clip.

(** The attributes [new], [get_channel] and [duration] read or assign;
    [filename] and [metadata] belong to [load] alone. *)
Record t : Type := mk {
  rate : Z;
  channels : Z;
  data : list (list Q);
  length : Z
}.

Definition set_rate (r : Z) (c : t) : t :=
  mk r (channels c) (data c) (length c).
Definition set_channels (n : Z) (c : t) : t :=
  mk (rate c) n (data c) (length c).
Definition set_data (d : list (list Q)) (c : t) : t :=
  mk (rate c) (channels c) d (length c).
Definition set_length (n : Z) (c : t) : t :=
  mk (rate c) (channels c) (data c) n.

(** The [duration] property: [self.length / self.rate]. *)
Definition duration (c : t) : result Q :=
  truediv (inject_Z (length c)) (inject_Z (rate c)).

(** [Clip.new]: the four assignments in source order; [numpy.zeros] may
    raise after [channels] and [length] have been assigned. *)
Definition new (channels length : Z) : M t unit :=
  (modify (set_channels channels) ;;
   modify (set_length length) ;;
   zeros <- lift (numpy_zeros2 channels length) ;;
   modify (set_data zeros) ;;
   modify (set_rate 44100))%method.

(** [Clip.get_channel]: [self.data[index]]. *)
Definition get_channel (c : t) (index : Z) : result (list Q) :=
  numpy_index (data c) index.

(** The data-model invariant: the shape of [data] is
    [channels] by [length]. *)
Definition shaped (c : t) : Prop :=
  Z.of_nat (List.length (data c)) = channels c /\
  Forall (fun row => Z.of_nat (List.length row) = length c) (data c).

End Clip.

(** ** The mixer seen by a read head *)

Module Mixer.

(** Modelled from the spec: the [Mixer] class, which [readhead.py] imports
    from [audio/io/mixer.py] but which that file does not define.  The
    spec gives it an output sample [rate] and a buffer [size]; these are
    the two attributes [ReadHead.read] uses. *)
Record t : Type := mk {
  rate : Z;
  size : Z
}.

End Mixer.

(** ** audio/player/readhead.py *)

Module ReadHead.

Record t : Type := mk {
  frame : Z;
  clip : Clip.t;
  channel : Z;
  position : Q;
  speed : Q;
  active : bool
}.

Definition set_frame (n : Z) (h : t) : t :=
  mk n (clip h) (channel h) (position h) (speed h) (active h).
Definition set_position (p : Q) (h : t) : t :=
  mk (frame h) (clip h) (channel h) p (speed h) (active h).

(** [ReadHead.__init__]: the attribute values are computed in source
    order, so a zero [clip.channels] faults before a zero
    [clip.length]. *)
Definition init (clip : Clip.t) (channel : Z) (position speed : Q)
    (active : bool) : result t :=
  match pymod_int channel (Clip.channels clip) with
  | Raise e => Raise e
  | Ok channel' =>
      match pymod position (inject_Z (Clip.length clip)) with
      | Raise e => Raise e
      | Ok position' => Ok (mk 0 clip channel' position' speed active)
      end
  end.

(** [ReadHead.seek]. *)
Definition seek (position : Q) : M t Q :=
  (h <- get ;;
   p <- lift (pymod position (inject_Z (Clip.length (clip h)))) ;;
   modify (set_position p) ;;
   h' <- get ;;
   ret (ReadHead.position h'))%method.

(** The body of the loop of [ReadHead.read] for index [i]. *)
Definition read_sample (step : Q) (data : list Q) (i : nat)
    (output : list Q) : M t (list Q) :=
  (h <- get ;;
   output' <-
     (if active h then
        v <- lift (numpy_index data (py_int (position h))) ;;
        modify (set_position (position h + step)%Q) ;;
        ret (numpy_store output i v)
      else ret output) ;;
   h' <- get ;;
   modify (set_frame (frame h' + 1)) ;;
   ret output')%method.

(** [for i in range(mixer.size)]. *)
Fixpoint read_loop (step : Q) (data : list Q) (indices : list nat)
    (output : list Q) : M t (list Q) :=
  match indices with
  | [] => ret output
  | i :: rest =>
      (output' <- read_sample step data i output ;;
       read_loop step data rest output')%method
  end.

(** [ReadHead.read]. *)
Definition read (mixer : Mixer.t) : M t (list Q) :=
  (output <- lift (numpy_zeros (Mixer.size mixer)) ;;
   h <- get ;;
   step <- lift (truediv (speed h * inject_Z (Clip.rate (clip h)))%Q
                         (inject_Z (Mixer.rate mixer))) ;;
   data <- lift (Clip.get_channel (clip h) (channel h)) ;;
   read_loop step data (seq 0 (Z.to_nat (Mixer.size mixer))) output)%method.

(** The data-model invariant of a head: its clip is shaped and its
    channel selects one of the clip's rows. *)
Definition bound (h : t) : Prop :=
  Clip.shaped (clip h) /\ 0 <= channel h < Clip.channels (clip h).

End ReadHead.

(** ** audio/io/mixer.py: the [device] property of [Device] *)

Module Device.

(** Modelled from the spec: [utils.typing.DeviceType], which is not
    among the sources.  The setter's docstring allows a device id, a device
    name or [None]. *)
Inductive DeviceType : Type :=
| DevNone
| DevId (n : Z)
| DevName (s : string).

(** The entries of the dictionary [sounddevice.query_devices] returns that
    the setter reads. *)
Record DeviceInfo : Type := mk_info {
  max_input_channels : Z;
  max_output_channels : Z
}.

Record t : Type := mk {
  identifier : Z;
  channels : Z;
  rate : Z;
  length : Z;
  duplex : bool;
  _device : DeviceType;
  _stream : option Z
}.

Definition set_duplex (b : bool) (d : t) : t :=
  mk (identifier d) (channels d) (rate d) (length d) b (_device d)
     (_stream d).

(** [identifier or 0]: [None], [0] and the empty string are falsy. *)
Definition or_zero (identifier : DeviceType) : DeviceType :=
  match identifier with
  | DevNone => DevId 0
  | DevId n => if n =? 0 then DevId 0 else DevId n
  | DevName EmptyString => DevId 0
  | DevName s => DevName s
  end.

Definition no_playback : exn :=
  ValueError "The device does not support playback.".

(** How an assignment to [device] ends: the setter returns, raises an
    exception of its own or of the host, or exceeds CPython's recursion
    limit. *)
Inductive outcome : Type :=
| Returned
| Raised (e : exn)
| RecursionError.

Section Setter.

(** [sounddevice.query_devices], the host audio subsystem. *)
Variable query_devices : DeviceType -> result DeviceInfo.

(** The setter of [Device.device].  [self.device = identifier or 0]
    inside the setter is a call of the setter itself; [depth] bounds the
    nesting of these calls, and [None] is a call that needs more than
    [depth] nested calls (CPython reports it as [RecursionError]). *)
Fixpoint set_device (depth : nat) (identifier : DeviceType) (self : t)
    : option (t * result unit) :=
  match depth with
  | O => None
  | S depth' =>
      match query_devices identifier with
      | Raise e => Some (self, Raise e)
      | Ok info =>
          if 0 <? max_output_channels info then
            let self' := set_duplex (0 <? max_input_channels info) self in
            set_device depth' (or_zero identifier) self'
          else Some (self, Raise no_playback)
      end
  end.

(** The setter again, with the Device it leaves behind on every outcome.
    [limit] is the number of nested calls CPython allows; the call that
    exceeds it raises [RecursionError], which unwinds every pending call of
    the setter and leaves the attributes as the calls have assigned them.
    A call of the setter returns when the assignment inside it returns. *)
Fixpoint assign_device (limit : nat) (identifier : DeviceType) (self : t)
    : t * outcome :=
  match limit with
  | O => (self, RecursionError)
  | S limit' =>
      match query_devices identifier with
      | Raise e => (self, Raised e)
      | Ok info =>
          if 0 <? max_output_channels info then
            let self' := set_duplex (0 <? max_input_channels info) self in
            assign_device limit' (or_zero identifier) self'
          else (self, Raised no_playback)
      end
  end.

End Setter.

End Device.

(** ** Concrete clips, heads and devices *)

(** A one-channel clip holding [0, 1, 2, 3] at rate 4. *)
Definition ramp : Clip.t := Clip.mk 4 1 [[0; 1; 2; 3]%Q] 4.

(** A two-channel clip with distinguishable rows. *)
Definition stereo : Clip.t := Clip.mk 44100 2 [[1; 2]%Q; [3; 4]%Q] 2.

(** The attribute values of a clip object before [new] runs on it. *)
Definition blank : Clip.t := Clip.mk 0 0 [] 0.

(** An active head on [ramp] at the given position and speed. *)
Definition ramp_head (position speed : Q) : ReadHead.t :=
  ReadHead.mk 0 ramp 0 position speed true.

(** An inactive head in the middle of [ramp]. *)
Definition parked_head : ReadHead.t :=
  ReadHead.mk 7 ramp 0 (5 # 2) 1 false.

(** A head whose clip has been emptied after the head was built. *)
Definition orphan_head : ReadHead.t :=
  ReadHead.mk 0 (Clip.mk 44100 1 [[]] 0) 0 0 1 true.

(** A host with a playback-only device 1, a duplex device 2 and a
    capture-only device 3; every other identifier is unknown. *)
Definition host (identifier : Device.DeviceType)
    : result Device.DeviceInfo :=
  match identifier with
  | Device.DevId 1 => Ok (Device.mk_info 0 2)
  | Device.DevId 2 => Ok (Device.mk_info 2 2)
  | Device.DevId 3 => Ok (Device.mk_info 2 0)
  | _ => Raise (ValueError "Error querying device")
  end.

(** A device configured for device 1, with a stream handle. *)
Definition soundcard : Device.t :=
  Device.mk 0 2 48000 2048 false (Device.DevId 1) (Some 5).

(** ** The samples a call of [read] takes *)

(** The position of an active head [i] samples into a call of [read]:
    [step] has been added [i] times, as the loop adds it. *)
Fixpoint position_after (p step : Q) (i : nat) : Q :=
  match i with
  | O => p
  | S i' => position_after (p + step)%Q step i'
  end.

(** [data[int(position)]], the sample an active head reads at [p]. *)
Definition sample_at (row : list Q) (p : Q) : result Q :=
  numpy_index row (py_int p).

(** The samples [n] iterations of the loop read from [p] on, up to the first
    fault, and that fault. *)
Fixpoint collect (row : list Q) (p step : Q) (n : nat)
    : list Q * option exn :=
  match n with
  | O => ([], None)
  | S n' =>
      match sample_at row p with
      | Raise e => ([], Some e)
      | Ok v =>
          let (vs, fault) := collect row (p + step)%Q step n' in
          (v :: vs, fault)
      end
  end.

(** The head after [k] completed iterations of the loop of an active
    head. *)
Definition advanced (step : Q) (k : nat) (h : ReadHead.t) : ReadHead.t :=
  ReadHead.set_frame (ReadHead.frame h + Z.of_nat k)
    (ReadHead.set_position
       (position_after (ReadHead.position h) step k) h).

(** [buf] with the values [vs] written from index [a] on. *)
Definition splice (buf : list Q) (a : nat) (vs : list Q) : list Q :=
  firstn a buf ++ vs ++ skipn (a + List.length vs) buf.

(** The step of a head under a mixer, as [read] computes it. *)
Definition step_of (m : Mixer.t) (h : ReadHead.t) : Q :=
  (ReadHead.speed h * inject_Z (Clip.rate (ReadHead.clip h)) /
   inject_Z (Mixer.rate m))%Q.

(** ** audio/io/mixer.py: the tone generator [fill] and its callback *)

(** A method step that replaces the state by the result of [f], or raises
    and keeps the state, as an in-place update does. *)
Definition update {S} (f : S -> result S) : M S unit :=
  fun s =>
    match f s with
    | Ok s' => (s', Ok tt)
    | Raise e => (s, Raise e)
    end.

(** [a[i, j] = v] on a two-dimensional numpy array, for indices that are
    not negative. *)
Definition numpy_store2 (a : list (list Q)) (i j : nat) (v : Q)
    : result (list (list Q)) :=
  match nth_error a i with
  | None => Raise IndexError
  | Some row =>
      if (j <? List.length row)%nat
      then Ok (numpy_store a i (numpy_store row j v))
      else Raise IndexError
  end.

(** The stride [10.21678] of the 440 Hz tone. *)
Definition stride : Q := 1021678 # 100000.

(** [int(n * 10.21678) % 1024], the index into the sine table for the
    sample number [n], with the product taken exactly; no statement about
    [fill] depends on which entry of the table an index selects. *)
Definition phase (n : Z) : Z := py_int (inject_Z n * stride) mod 1024.

Section Tone.

(** The module-level [sintable]: one period of a sine in 1024 samples.  The
    values cannot be computed in [Q]; the table is a parameter. *)
Variable sintable : list Q.

(** The body of the loop of [fill] for index [i]; the state is [outdata],
    which [fill] updates in place.  The model raises [IndexError] where
    Python indexing would; the properties below are about calls whose
    indices are in range. *)
Definition fill_sample (frame : Z) (i : nat) : M (list (list Q)) unit :=
  (val <- lift (numpy_index sintable (phase (Z.of_nat i + frame))) ;;
   update (fun outdata => numpy_store2 outdata i 0 val) ;;
   update (fun outdata => numpy_store2 outdata i 1 val))%method.

Fixpoint fill_loop (frame : Z) (indices : list nat)
    : M (list (list Q)) unit :=
  match indices with
  | [] => ret tt
  | i :: rest => (fill_sample frame i ;; fill_loop frame rest)%method
  end.

(** [fill(outdata, frames, frame)]. *)
Definition fill (frames frame : Z) : M (list (list Q)) unit :=
  fill_loop frame (seq 0 (Z.to_nat frames)).

(** The closure [callback] that [cback] returns.  Its state is the
    [nonlocal] counter [frame] together with the buffer it is handed; the
    counter moves only when [fill] has returned.  The timing of the call and
    the two [print] lines are not modelled. *)
Definition callback (frames : Z) : M (Z * list (list Q)) unit :=
  fun s =>
    match fill frames (fst s) (snd s) with
    | (outdata, Ok _) => ((fst s + frames, outdata), Ok tt)
    | (outdata, Raise e) => ((fst s, outdata), Raise e)
    end.

(** The row [fill] leaves at index [i]: the table sample of sample number
    [i + frame] in the first two columns. *)
Definition tone_row (frame : Z) (i : nat) (row : list Q) : list Q :=
  let val := nth (Z.to_nat (phase (Z.of_nat i + frame))) sintable 0%Q in
  val :: val :: skipn 2 row.

(** The rows [fill] leaves from index [a] on. *)
Fixpoint tone_rows (frame : Z) (a : nat) (rows : list (list Q))
    : list (list Q) :=
  match rows with
  | [] => []
  | row :: rest => tone_row frame a row :: tone_rows frame (S a) rest
  end.

End Tone.

(** A table that numbers its own entries. *)
Definition index_table : list Q :=
  map (fun i => inject_Z (Z.of_nat i)) (seq 0 1024).

(** ** Binary64 rounding *)

(** [2 ^ e] for an exponent of either sign. *)
Definition pow2 (e : Z) : Q := (2 ^ e)%Q.

(** The integer nearest to [x], the even one on a tie. *)
Definition round_half_even (x : Q) : Z :=
  let f := Qfloor x in
  match (x - inject_Z f ?= 1 # 2)%Q with
  | Lt => f
  | Gt => f + 1
  | Eq => if Z.even f then f else f + 1
  end.

(** [floor (log2 a)] for [a > 0]. *)
Definition ilog2 (a : Q) : Z :=
  let k := Z.log2 (Qnum a) - Z.log2 (Zpos (Qden a)) in
  if Qle_bool (pow2 k) a then k else k - 1.

(** The exponent of the unit in the last place of the double nearest to
    [q]: 53 significant bits, and no exponent below that of the subnormal
    numbers. *)
Definition ulp_exponent (q : Q) : Z := Z.max (-1074) (ilog2 (Qabs q) - 52).

(** The finite double nearest to [q], ties to even.  Overflow to infinity
    is not modelled: a magnitude beyond the largest double is still rounded
    to 53 bits. *)
Definition round64 (q : Q) : Q :=
  if Qeq_bool q 0 then 0%Q
  else
    (inject_Z (round_half_even (q / pow2 (ulp_exponent q))) *
     pow2 (ulp_exponent q))%Q.

(** ** Arithmetic on doubles *)

Module Float64.

(** [float(n)] for an int [n]. *)
Definition of_int (n : Z) : Q := round64 (inject_Z n).

(** [x + y] and [x * y] on doubles: the exact result, rounded. *)
Definition add (x y : Q) : Q := round64 (x + y).
Definition mul (x y : Q) : Q := round64 (x * y).

(** [x / y] on doubles. *)
Definition truediv (x y : Q) : result Q :=
  if Qeq_bool y 0 then Raise ZeroDivisionError else Ok (round64 (x / y)).

(** C's [fmod]: the remainder of the division truncated towards zero.  It
    has the sign of [x] and is always a double, so it is not rounded. *)
Definition fmod (x y : Q) : Q := (x - y * inject_Z (py_int (x / y)))%Q.

(** [x % y] on doubles, as CPython computes it: [fmod], then [y] added
    once, in double arithmetic, when the remainder is not zero and its sign
    is not the sign of [y]. *)
Definition rem (x y : Q) : result Q :=
  if Qeq_bool y 0 then Raise ZeroDivisionError
  else
    let m := fmod x y in
    if Qeq_bool m 0 then Ok 0%Q
    else if xorb (negb (Qle_bool 0 y)) (negb (Qle_bool 0 m))
         then Ok (add m y)
         else Ok m.

(** [ReadHead.__init__] with a float [position]. *)
Definition init (clip : Clip.t) (channel : Z) (position speed : Q)
    (active : bool) : result ReadHead.t :=
  match pymod_int channel (Clip.channels clip) with
  | Raise e => Raise e
  | Ok channel' =>
      match rem position (of_int (Clip.length clip)) with
      | Raise e => Raise e
      | Ok position' =>
          Ok (ReadHead.mk 0 clip channel' position' speed active)
      end
  end.

(** [ReadHead.seek] with a float [position]. *)
Definition seek (position : Q) : M ReadHead.t Q :=
  (h <- get ;;
   p <- lift (rem position (of_int (Clip.length (ReadHead.clip h)))) ;;
   modify (ReadHead.set_position p) ;;
   h' <- get ;;
   ret (ReadHead.position h'))%method.

(** The body of the loop of [ReadHead.read] for index [i]:
    [self.position += step] is an addition of doubles. *)
Definition read_sample (step : Q) (data : list Q) (i : nat)
    (output : list Q) : M ReadHead.t (list Q) :=
  (h <- get ;;
   output' <-
     (if ReadHead.active h then
        v <- lift (numpy_index data (py_int (ReadHead.position h))) ;;
        modify (ReadHead.set_position (add (ReadHead.position h) step)) ;;
        ret (numpy_store output i v)
      else ret output) ;;
   h' <- get ;;
   modify (ReadHead.set_frame (ReadHead.frame h' + 1)) ;;
   ret output')%method.

Fixpoint read_loop (step : Q) (data : list Q) (indices : list nat)
    (output : list Q) : M ReadHead.t (list Q) :=
  match indices with
  | [] => ret output
  | i :: rest =>
      (output' <- read_sample step data i output ;;
       read_loop step data rest output')%method
  end.

(** [ReadHead.read]: [self.speed * self.clip.rate / mixer.rate] converts
    the two int rates to doubles and rounds the product and the
    quotient. *)
Definition read (mixer : Mixer.t) : M ReadHead.t (list Q) :=
  (output <- lift (numpy_zeros (Mixer.size mixer)) ;;
   h <- get ;;
   step <- lift (truediv
                   (mul (ReadHead.speed h)
                        (of_int (Clip.rate (ReadHead.clip h))))
                   (of_int (Mixer.rate mixer))) ;;
   data <- lift (Clip.get_channel (ReadHead.clip h) (ReadHead.channel h)) ;;
   read_loop step data (seq 0 (Z.to_nat (Mixer.size mixer))) output)%method.

(** The step [read] computes. *)
Definition step_of (m : Mixer.t) (h : ReadHead.t) : Q :=
  round64
    (mul (ReadHead.speed h) (of_int (Clip.rate (ReadHead.clip h))) /
     of_int (Mixer.rate m)).

(** The position of an active head [i] samples into a call of [read]: [i]
    additions of doubles. *)
Fixpoint position_after (p step : Q) (i : nat) : Q :=
  match i with
  | O => p
  | S i' => position_after (add p step) step i'
  end.

(** The samples [n] iterations of the loop read from [p] on, up to the first
    fault, and that fault. *)
Fixpoint collect (row : list Q) (p step : Q) (n : nat)
    : list Q * option exn :=
  match n with
  | O => ([], None)
  | S n' =>
      match sample_at row p with
      | Raise e => ([], Some e)
      | Ok v =>
          let (vs, fault) := collect row (add p step) step n' in
          (v :: vs, fault)
      end
  end.

(** The head after [k] completed iterations of the loop of an active
    head. *)
Definition advanced (step : Q) (k : nat) (h : ReadHead.t) : ReadHead.t :=
  ReadHead.set_frame (ReadHead.frame h + Z.of_nat k)
    (ReadHead.set_position
       (position_after (ReadHead.position h) step k) h).

End Float64.

(** The double [-2 ** -70]. *)
Definition tiny_negative : Q := Qopp (Qmake 1 (Pos.pow 2 70)).

(** The doubles nearest to [0.1], [0.3] and [0.7]. *)
Definition double_0_1 : Q := round64 (1 # 10).
Definition double_0_3 : Q := round64 (3 # 10).
Definition double_0_7 : Q := round64 (7 # 10).

(** An eight-sample and a seven-sample clip at rate 4 and rate 1. *)
Definition ramp8 : Clip.t :=
  Clip.mk 4 1 [[0; 1; 2; 3; 4; 5; 6; 7]%Q] 8.
Definition ramp7 : Clip.t :=
  Clip.mk 1 1 [[0; 1; 2; 3; 4; 5; 6]%Q] 7.

(** ** Numeric facts *)

Lemma Qeq_bool_inject_Z_nonzero (n : Z) :
  n <> 0 -> Qeq_bool (inject_Z n) 0 = false.
Proof.
  intros Hn. unfold Qeq_bool, inject_Z. simpl.
  apply Z.eqb_neq. lia.
Qed.

Lemma Qeq_bool_inject_Z_zero (n : Z) :
  n = 0 -> Qeq_bool (inject_Z n) 0 = true.
Proof. intros ->. reflexivity. Qed.

(** The remainder of the floored division by a positive divisor lies in
    the half-open interval below the divisor. *)
Lemma floor_remainder_range (x y : Q) :
  (0 < y)%Q ->
  (0 <= x - y * inject_Z (Qfloor (x / y)) /\
   x - y * inject_Z (Qfloor (x / y)) < y)%Q.
Proof.
  intros Hy.
  assert (Hx : (x == (x / y) * y)%Q) by (field; lra).
  pose proof (Qfloor_le (x / y)) as Hlow.
  pose proof (Qlt_floor (x / y)) as Hhigh.
  rewrite inject_Z_plus in Hhigh.
  set (q := (x / y)%Q) in *. set (f := inject_Z (Qfloor q)) in *.
  change (inject_Z 1) with 1%Q in Hhigh.
  split.
  - rewrite Hx at 1. nra.
  - rewrite Hx at 1. nra.
Qed.

(** ** The loop of [ReadHead.read] *)

Section ReadLoop.

Import ReadHead.

Variables (step : Q) (data : list Q).

Lemma read_sample_inactive (i : nat) (output : list Q) (h : t) :
  active h = false ->
  read_sample step data i output h = (set_frame (frame h + 1) h, Ok output).
Proof.
  intros Hoff. unfold read_sample, bind, get, ret, modify.
  rewrite Hoff. reflexivity.
Qed.

Lemma read_loop_inactive (indices : list nat) :
  forall (output : list Q) (h : t),
    active h = false ->
    read_loop step data indices output h =
    (set_frame (frame h + Z.of_nat (List.length indices)) h, Ok output).
Proof.
  induction indices as [|i rest IH]; intros output h Hoff.
  - simpl. unfold ret. destruct h; unfold set_frame; simpl.
    now rewrite Z.add_0_r.
  - cbn [read_loop]. unfold bind at 1.
    rewrite read_sample_inactive by assumption.
    rewrite IH by assumption.
    unfold set_frame; cbn [frame clip channel position speed active].
    do 2 f_equal. cbn [List.length]. lia.
Qed.

(** One iteration never touches [clip], [channel], [speed] or [active],
    and moves [frame] by at most one, by exactly one when it completes. *)
Lemma read_sample_frame (i : nat) (output : list Q) (h : t) :
  let (h', r) := read_sample step data i output h in
  clip h' = clip h /\ channel h' = channel h /\ speed h' = speed h /\
  active h' = active h /\
  match r with
  | Ok _ =>
      frame h' = frame h + 1 /\
      (position h' ==
       if active h then position h + step else position h)%Q
  | Raise _ => frame h' = frame h /\ position h' = position h
  end.
Proof.
  unfold read_sample, bind, get, ret, modify, lift.
  destruct (active h) eqn:Hact.
  - destruct (numpy_index data (py_int (position h))); cbn;
      rewrite ?Hact; repeat split; auto; reflexivity.
  - cbn. rewrite Hact. repeat split; auto; reflexivity.
Qed.

Lemma read_loop_frame (indices : list nat) :
  forall (output : list Q) (h : t),
    let (h', r) := read_loop step data indices output h in
    clip h' = clip h /\ channel h' = channel h /\ speed h' = speed h /\
    active h' = active h /\
    frame h <= frame h' <= frame h + Z.of_nat (List.length indices) /\
    match r with
    | Ok _ =>
        frame h' = frame h + Z.of_nat (List.length indices) /\
        (position h' ==
         if active h
         then position h + inject_Z (Z.of_nat (List.length indices)) * step
         else position h)%Q
    | Raise _ => frame h' < frame h + Z.of_nat (List.length indices)
    end.
Proof.
  induction indices as [|i rest IH]; intros output h.
  - cbn. repeat split; try lia. destruct (active h); ring.
  - cbn [read_loop]. unfold bind.
    pose proof (read_sample_frame i output h) as Hone.
    destruct (read_sample step data i output h) as [h1 [output1|e]].
    + destruct Hone as (Hc & Hch & Hs & Ha & Hf & Hp).
      specialize (IH output1 h1).
      destruct (read_loop step data rest output1 h1) as [h2 r].
      destruct IH as (Hc2 & Hch2 & Hs2 & Ha2 & Hf2 & Hr).
      cbn [List.length]. rewrite Nat2Z.inj_succ.
      repeat split; try congruence; try lia.
      destruct r as [output2|e].
      * destruct Hr as [Hf3 Hp3]. split; [lia|].
        rewrite Hp3, Ha. destruct (active h).
        -- rewrite Hp. unfold Z.succ. rewrite inject_Z_plus.
           change (inject_Z 1) with 1%Q. ring.
        -- exact Hp.
      * lia.
    + destruct Hone as (Hc & Hch & Hs & Ha & Hf & Hp).
      cbn [List.length]. rewrite Nat2Z.inj_succ.
      repeat split; try congruence; lia.
Qed.

End ReadLoop.

(** ** [ReadHead.read] as a whole *)

(** Once the buffer is allocated, the step computed and the channel row
    fetched, [read] is its loop over [range(mixer.size)]. *)
Lemma read_enters_loop (m : Mixer.t) (h : ReadHead.t) (row : list Q) :
  Mixer.rate m <> 0 ->
  0 <= Mixer.size m ->
  Clip.get_channel (ReadHead.clip h) (ReadHead.channel h) = Ok row ->
  ReadHead.read m h =
  ReadHead.read_loop
    (ReadHead.speed h * inject_Z (Clip.rate (ReadHead.clip h)) /
     inject_Z (Mixer.rate m))%Q
    row (seq 0 (Z.to_nat (Mixer.size m)))
    (repeat 0%Q (Z.to_nat (Mixer.size m))) h.
Proof.
  intros Hrate Hsize Hrow.
  unfold ReadHead.read, bind, lift, get, numpy_zeros, truediv.
  destruct (Z.ltb_spec (Mixer.size m) 0) as [Hneg|_]; [lia|].
  rewrite Qeq_bool_inject_Z_nonzero by assumption.
  rewrite Hrow. reflexivity.
Qed.

(** A head built on a shaped clip with its channel in range can fetch its
    channel row. *)
Lemma bound_head_has_row (h : ReadHead.t) :
  ReadHead.bound h ->
  exists row, Clip.get_channel (ReadHead.clip h) (ReadHead.channel h) = Ok row.
Proof.
  intros [[Hrows _] Hchan].
  unfold Clip.get_channel, numpy_index.
  rewrite Hrows.
  destruct (Z.ltb_spec (ReadHead.channel h) 0) as [Hneg|_]; [lia|].
  destruct (Z.leb_spec 0 (ReadHead.channel h)) as [_|Hneg]; [|lia].
  destruct (Z.ltb_spec (ReadHead.channel h) (Clip.channels (ReadHead.clip h)))
    as [_|Hbig]; [|lia].
  cbn [andb].
  destruct (nth_error (Clip.data (ReadHead.clip h))
                      (Z.to_nat (ReadHead.channel h))) as [row|] eqn:Hnth.
  - now exists row.
  - apply nth_error_None in Hnth. lia.
Qed.

(** What a call of [read] that returns has done to the head, in exact
    arithmetic: [frame] has advanced by the buffer size and an active head's
    [position] by as many steps, with no wrap-around. *)
Lemma read_returns (m : Mixer.t) (h h' : ReadHead.t) (output : list Q) :
  ReadHead.read m h = (h', Ok output) ->
  ReadHead.frame h' = ReadHead.frame h + Mixer.size m /\
  (ReadHead.position h' ==
   if ReadHead.active h
   then ReadHead.position h +
        inject_Z (Mixer.size m) *
        (ReadHead.speed h * inject_Z (Clip.rate (ReadHead.clip h)) /
         inject_Z (Mixer.rate m))
   else ReadHead.position h)%Q.
Proof.
  unfold ReadHead.read, bind, lift, get, numpy_zeros, truediv.
  destruct (Z.ltb_spec (Mixer.size m) 0) as [Hneg|Hsize]; [discriminate|].
  destruct (Qeq_bool (inject_Z (Mixer.rate m)) 0); [discriminate|].
  destruct (Clip.get_channel (ReadHead.clip h) (ReadHead.channel h))
    as [row|e]; [|discriminate].
  intros Hloop.
  match type of Hloop with
  | ReadHead.read_loop ?s ?d ?ix ?o ?x = _ =>
      pose proof (read_loop_frame s d ix o x) as Hinv
  end.
  rewrite Hloop in Hinv.
  destruct Hinv as (_ & _ & _ & _ & _ & Hf & Hp).
  rewrite length_seq, Z2Nat.id in Hf, Hp by assumption.
  split; assumption.
Qed.

(** X6.  Whatever the outcome of [read], [frame] does not decrease and
    moves by at most the buffer size. *)
Lemma read_frame_monotone (m : Mixer.t) (h : ReadHead.t) :
  ReadHead.frame h <= ReadHead.frame (fst (ReadHead.read m h))
  <= ReadHead.frame h + Z.max 0 (Mixer.size m).
Proof.
  unfold ReadHead.read, bind, lift, get, numpy_zeros, truediv.
  destruct (Z.ltb_spec (Mixer.size m) 0) as [Hneg|Hsize]; [cbn; lia|].
  destruct (Qeq_bool (inject_Z (Mixer.rate m)) 0); [cbn; lia|].
  destruct (Clip.get_channel (ReadHead.clip h) (ReadHead.channel h))
    as [row|e]; [|cbn; lia].
  match goal with
  | |- context [ReadHead.read_loop ?s ?d ?ix ?o ?x] =>
      pose proof (read_loop_frame s d ix o x) as Hinv;
      destruct (ReadHead.read_loop s d ix o x) as [h' r]
  end.
  destruct Hinv as (_ & _ & _ & _ & Hf & _).
  rewrite length_seq, Z2Nat.id in Hf by assumption.
  cbn [fst]. lia.
Qed.

(** An inactive head is not exempt from the work before the loop: with a
    mixer rate of 0 the step cannot be computed and [read] raises, the head
    untouched. *)
Lemma read_zero_rate_raises (m : Mixer.t) (h : ReadHead.t) :
  Mixer.rate m = 0 ->
  0 <= Mixer.size m ->
  ReadHead.read m h = (h, Raise ZeroDivisionError).
Proof.
  intros Hrate Hsize.
  unfold ReadHead.read, bind, lift, get, numpy_zeros, truediv.
  destruct (Z.ltb_spec (Mixer.size m) 0) as [Hneg|_]; [lia|].
  rewrite Qeq_bool_inject_Z_zero by assumption. reflexivity.
Qed.

(** ** Claims about [ReadHead] *)

(** C1.  The position-advance law asks that one [read] of [n] samples leave
    an active head at [(p0 + n * s * cr / mr) mod L], inside [[0, L)].
    [read] adds the step and never reduces modulo the clip length: the head
    at position 3 of the four-sample [ramp] (rate 4, speed 1), read for one
    sample by a mixer of rate 4, returns [[3]] and stands at position 4,
    which is not below the length 4 and is not the wrapped value 0. *)
Theorem read_leaves_position_unwrapped :
  let m := Mixer.mk 4 1 in
  let h := ramp_head 3 1 in
  let h' := fst (ReadHead.read m h) in
  snd (ReadHead.read m h) = Ok [3%Q] /\
  (ReadHead.position h' == 3 + 1 * 1 * 4 / 4)%Q /\
  ~ (ReadHead.position h' < inject_Z (Clip.length ramp))%Q /\
  (exists wrapped,
      pymod (3 + 1 * 1 * 4 / 4) (inject_Z (Clip.length ramp)) = Ok wrapped /\
      (wrapped == 0)%Q /\
      ~ (ReadHead.position h' == wrapped)%Q).
Proof.
  cbv zeta. split; [reflexivity|].
  split; [vm_compute; reflexivity|].
  split; [vm_compute; discriminate|].
  eexists. split; [reflexivity|].
  split; [vm_compute; reflexivity|vm_compute; discriminate].
Qed.

(** C2.  End-to-end scenario A: on [ramp] (data [0, 1, 2, 3], rate 4, length
    4) an active head at position 0 with speed 1, read by a mixer of rate 4
    and size 4, returns [[0, 1, 2, 3]] as the claim says, but is left at
    position 4, not 0. *)
Theorem scenario_A_ends_at_length :
  let m := Mixer.mk 4 4 in
  let h := ramp_head 0 1 in
  let h' := fst (ReadHead.read m h) in
  snd (ReadHead.read m h) = Ok [0; 1; 2; 3]%Q /\
  (ReadHead.position h' == 4)%Q /\
  ~ (ReadHead.position h' == 0)%Q.
Proof.
  cbv zeta. split; [reflexivity|].
  split; [vm_compute; reflexivity|vm_compute; discriminate].
Qed.

(** C4.  Inactive invariance: for an inactive head that satisfies the head
    invariant and a mixer with a non-zero rate and a size [n >= 0], [read]
    returns a buffer of [n] zeros, adds [n] to [frame] and leaves [clip],
    [channel], [position], [speed] and [active] as they were. *)
Theorem read_inactive (h : ReadHead.t) (m : Mixer.t) :
  ReadHead.active h = false ->
  ReadHead.bound h ->
  Mixer.rate m <> 0 ->
  0 <= Mixer.size m ->
  exists h',
    ReadHead.read m h = (h', Ok (repeat 0%Q (Z.to_nat (Mixer.size m)))) /\
    ReadHead.frame h' = ReadHead.frame h + Mixer.size m /\
    ReadHead.position h' = ReadHead.position h /\
    ReadHead.clip h' = ReadHead.clip h /\
    ReadHead.channel h' = ReadHead.channel h /\
    ReadHead.speed h' = ReadHead.speed h /\
    ReadHead.active h' = ReadHead.active h.
Proof.
  intros Hoff Hbound Hrate Hsize.
  destruct (bound_head_has_row h Hbound) as [row Hrow].
  rewrite (read_enters_loop m h row Hrate Hsize Hrow).
  rewrite read_loop_inactive by assumption.
  eexists. split; [reflexivity|].
  rewrite length_seq, Z2Nat.id by assumption.
  cbn. repeat split; reflexivity.
Qed.

Lemma read_inactive_witness :
  ReadHead.active parked_head = false /\
  ReadHead.bound parked_head /\
  exists h',
    ReadHead.read (Mixer.mk 4 3) parked_head = (h', Ok [0; 0; 0]%Q) /\
    ReadHead.frame h' = 10 /\
    ReadHead.position h' = (5 # 2)%Q.
Proof.
  assert (Hbound : ReadHead.bound parked_head).
  { repeat split; cbn; try lia. repeat constructor. }
  split; [reflexivity|]. split; [exact Hbound|].
  destruct (read_inactive parked_head (Mixer.mk 4 3) eq_refl Hbound)
    as (h' & Hread & Hframe & Hpos & _); cbn; try lia.
  exists h'. repeat split; assumption.
Defined.

(** C8.  The claim asks that every call of [read] add exactly [mixer.size]
    to [frame].  The active head at position 0 of the four-sample [ramp],
    read by a mixer of rate 4 and size 5, runs off the end of the channel
    row: the fifth sample raises [IndexError], and [frame] has advanced by
    4, not 5.  An inactive head under the same mixer does advance by 5. *)
Theorem read_past_end_stops_frame :
  let m := Mixer.mk 4 5 in
  let h := ramp_head 0 1 in
  snd (ReadHead.read m h) = Raise IndexError /\
  ReadHead.frame (fst (ReadHead.read m h)) = ReadHead.frame h + 4 /\
  ReadHead.frame (fst (ReadHead.read m h)) <> ReadHead.frame h + Mixer.size m /\
  ReadHead.frame (fst (ReadHead.read m parked_head)) =
  ReadHead.frame parked_head + Mixer.size m.
Proof.
  cbv zeta. repeat split; try reflexivity. vm_compute. discriminate.
Qed.

(** ** Claims about [Clip] *)

(** numpy indexing of a list by an index of [[-n, n)] returns the element
    at that index counted from the front or, when negative, from the end;
    any other index raises [IndexError]. *)
Lemma numpy_index_front {A} (a : list A) (i : Z) :
  0 <= i < Z.of_nat (List.length a) ->
  exists x, nth_error a (Z.to_nat i) = Some x /\ numpy_index a i = Ok x.
Proof.
  intros Hi. unfold numpy_index.
  destruct (Z.ltb_spec i 0) as [Hneg|_]; [lia|].
  destruct (Z.leb_spec 0 i) as [_|Hneg]; [|lia].
  destruct (Z.ltb_spec i (Z.of_nat (List.length a))) as [_|Hbig]; [|lia].
  cbn [andb].
  destruct (nth_error a (Z.to_nat i)) as [x|] eqn:Hnth.
  - exists x. split; reflexivity.
  - apply nth_error_None in Hnth. lia.
Qed.

Lemma numpy_index_back {A} (a : list A) (i : Z) :
  - Z.of_nat (List.length a) <= i < 0 ->
  exists x,
    nth_error a (Z.to_nat (Z.of_nat (List.length a) + i)) = Some x /\
    numpy_index a i = Ok x.
Proof.
  intros Hi. unfold numpy_index.
  destruct (Z.ltb_spec i 0) as [_|Hpos]; [|lia].
  rewrite (Z.add_comm i).
  destruct (Z.leb_spec 0 (Z.of_nat (List.length a) + i)) as [_|Hneg]; [|lia].
  destruct (Z.ltb_spec (Z.of_nat (List.length a) + i)
                       (Z.of_nat (List.length a))) as [_|Hbig]; [|lia].
  cbn [andb].
  destruct (nth_error a (Z.to_nat (Z.of_nat (List.length a) + i)))
    as [x|] eqn:Hnth.
  - exists x. split; reflexivity.
  - apply nth_error_None in Hnth. lia.
Qed.

Lemma numpy_index_outside {A} (a : list A) (i : Z) :
  i < - Z.of_nat (List.length a) \/ Z.of_nat (List.length a) <= i ->
  numpy_index a i = Raise IndexError.
Proof.
  intros Hi. unfold numpy_index.
  destruct (Z.ltb_spec i 0) as [Hneg|Hpos].
  - destruct (Z.leb_spec 0 (i + Z.of_nat (List.length a))) as [Hin|_];
      [lia|reflexivity].
  - destruct (Z.leb_spec 0 i) as [_|Hneg]; [|lia].
    destruct (Z.ltb_spec i (Z.of_nat (List.length a))) as [Hin|_];
      [lia|reflexivity].
Qed.

(** C3, as stated, fails: index [-1] is outside [[0, 2)] on the two-channel
    clip [stereo], and [get_channel] returns the last row instead of raising
    [IndexError]. *)
Lemma get_channel_minus_one_wraps :
  ~ (0 <= -1 < Clip.channels stereo) /\
  Clip.get_channel stereo (-1) = Ok [3; 4]%Q /\
  Clip.get_channel stereo (-1) <> Raise IndexError.
Proof.
  split; [cbn; lia|]. split; [reflexivity|discriminate].
Qed.

(** C3, amended.  On a clip whose data has [C] rows, [get_channel i] returns
    row [i] for [0 <= i < C], row [C + i] for [-C <= i < 0] (numpy counts a
    negative index from the end), and raises [IndexError] for every other
    [i]. *)
Theorem get_channel_bounds (c : Clip.t) (i : Z) :
  Clip.shaped c ->
  (0 <= i < Clip.channels c ->
   exists row,
     nth_error (Clip.data c) (Z.to_nat i) = Some row /\
     Clip.get_channel c i = Ok row) /\
  (- Clip.channels c <= i < 0 ->
   exists row,
     nth_error (Clip.data c) (Z.to_nat (Clip.channels c + i)) = Some row /\
     Clip.get_channel c i = Ok row) /\
  (i < - Clip.channels c \/ Clip.channels c <= i ->
   Clip.get_channel c i = Raise IndexError).
Proof.
  intros [Hrows _]. unfold Clip.get_channel. rewrite <- Hrows.
  split; [apply numpy_index_front|].
  split; [apply numpy_index_back|apply numpy_index_outside].
Qed.

Lemma get_channel_bounds_witness :
  Clip.shaped stereo /\
  Clip.get_channel stereo 1 = Ok [3; 4]%Q /\
  Clip.get_channel stereo (-2) = Ok [1; 2]%Q /\
  Clip.get_channel stereo 2 = Raise IndexError.
Proof.
  assert (Hshaped : Clip.shaped stereo).
  { split; [reflexivity|]. repeat constructor. }
  split; [exact Hshaped|].
  split; [|split].
  - destruct (proj1 (get_channel_bounds stereo 1 Hshaped)) as (row & Hnth & Hget).
    + cbn. lia.
    + rewrite Hget. vm_compute in Hnth. now injection Hnth as <-.
  - destruct (proj1 (proj2 (get_channel_bounds stereo (-2) Hshaped)))
      as (row & Hnth & Hget).
    + cbn. lia.
    + rewrite Hget. vm_compute in Hnth. now injection Hnth as <-.
  - apply (proj2 (proj2 (get_channel_bounds stereo 2 Hshaped))).
    right. cbn. lia.
Defined.

(** C7, as stated, fails: a length of 0 is not positive, and [new(2, 0)]
    does not fail. *)
Lemma new_accepts_zero_length :
  let length := 0 in
  ~ 0 < length /\
  snd (Clip.new 2 length blank) = Ok tt /\
  Clip.data (fst (Clip.new 2 length blank)) = [[]; []].
Proof.
  cbv zeta. split; [lia|]. split; reflexivity.
Qed.

(** C7, amended.  [new(channels, length)] with non-negative arguments leaves
    a clip with [channels] rows of [length] zeros, rate 44100 and duration
    [length / 44100]; it fails exactly when [channels] or [length] is
    negative, with the [ValueError] of [numpy.zeros]. *)
Theorem new_clip (self : Clip.t) (channels length : Z) :
  (0 <= channels /\ 0 <= length ->
   exists c,
     Clip.new channels length self = (c, Ok tt) /\
     Clip.channels c = channels /\
     Clip.length c = length /\
     Clip.rate c = 44100 /\
     Clip.data c =
       repeat (repeat 0%Q (Z.to_nat length)) (Z.to_nat channels) /\
     Clip.shaped c /\
     Clip.duration c = Ok (inject_Z length / inject_Z 44100)%Q) /\
  (channels < 0 \/ length < 0 ->
   exists msg, snd (Clip.new channels length self) = Raise (ValueError msg)) /\
  ((exists e, snd (Clip.new channels length self) = Raise e) <->
   channels < 0 \/ length < 0).
Proof.
  unfold Clip.new, bind, modify, lift, numpy_zeros2.
  destruct (Z.ltb_spec channels 0) as [Hc|Hc];
    destruct (Z.ltb_spec length 0) as [Hl|Hl]; cbn [orb fst snd].
  1-3: split; [intros [? ?]; lia|];
       split; [intros _; eexists; reflexivity|];
       split; [intros _; lia|intros _; eexists; reflexivity].
  split.
  - intros _. eexists. split; [reflexivity|].
    cbv [Clip.set_rate Clip.set_data Clip.set_length Clip.set_channels
         Clip.data Clip.channels Clip.length Clip.rate Clip.shaped
         Clip.duration].
    repeat split.
    + rewrite repeat_length. lia.
    + apply Forall_forall. intros row Hin.
      apply repeat_spec in Hin. subst row.
      rewrite repeat_length. lia.
  - split; [intros [?|?]; lia|].
    split; [intros [e He]; discriminate|intros [?|?]; lia].
Qed.

Lemma new_clip_witness :
  (0 <= 2 /\ 0 <= 100) /\
  exists c,
    Clip.new 2 100 blank = (c, Ok tt) /\
    Clip.rate c = 44100 /\
    Clip.data c = repeat (repeat 0%Q 100) 2 /\
    Clip.duration c = Ok (inject_Z 100 / inject_Z 44100)%Q.
Proof.
  assert (Hdims : 0 <= 2 /\ 0 <= 100) by lia.
  split; [exact Hdims|].
  destruct (proj1 (new_clip blank 2 100) Hdims)
    as (c & Hnew & _ & _ & Hrate & Hdata & _ & Hduration).
  exists c. repeat split; assumption.
Defined.

(** ** The zero-length clip *)

(** C9.  [Clip.new] accepts a length of 0; building a head on any clip of
    length 0 raises [ZeroDivisionError], from the modulo on the position
    when the clip has a channel; and [seek] on a head whose clip has length
    0 raises [ZeroDivisionError] and leaves the head as it was. *)
Theorem zero_length_clip_faults :
  (forall (self : Clip.t) (channels : Z),
      0 <= channels ->
      snd (Clip.new channels 0 self) = Ok tt /\
      Clip.length (fst (Clip.new channels 0 self)) = 0) /\
  (forall (clip : Clip.t) (channel : Z) (position speed : Q) (active : bool),
      Clip.length clip = 0 ->
      ReadHead.init clip channel position speed active =
      Raise ZeroDivisionError /\
      (Clip.channels clip <> 0 ->
       exists channel',
         pymod_int channel (Clip.channels clip) = Ok channel' /\
         pymod position (inject_Z (Clip.length clip)) =
         Raise ZeroDivisionError)) /\
  (forall (h : ReadHead.t) (p : Q),
      Clip.length (ReadHead.clip h) = 0 ->
      ReadHead.seek p h = (h, Raise ZeroDivisionError)).
Proof.
  split; [|split].
  - intros self channels Hc.
    unfold Clip.new, bind, modify, lift, numpy_zeros2.
    destruct (Z.ltb_spec channels 0) as [Hneg|_]; [lia|].
    cbn. split; reflexivity.
  - intros clip channel position speed active Hlen.
    unfold ReadHead.init, pymod_int, pymod. rewrite Hlen.
    split.
    + destruct (Clip.channels clip =? 0); reflexivity.
    + intros Hch. apply Z.eqb_neq in Hch. rewrite Hch.
      eexists. split; reflexivity.
  - intros h p Hlen.
    unfold ReadHead.seek, bind, get, lift, pymod. rewrite Hlen.
    reflexivity.
Qed.

Lemma zero_length_clip_faults_witness :
  snd (Clip.new 1 0 blank) = Ok tt /\
  ReadHead.init (fst (Clip.new 1 0 blank)) 0 0 1 true =
  Raise ZeroDivisionError /\
  Clip.length (ReadHead.clip orphan_head) = 0 /\
  ReadHead.seek 1 orphan_head = (orphan_head, Raise ZeroDivisionError).
Proof.
  destruct zero_length_clip_faults as (Hnew & Hinit & Hseek).
  split; [apply (Hnew blank 1); lia|].
  split; [apply (Hinit (fst (Clip.new 1 0 blank)) 0 0%Q 1%Q true); reflexivity|].
  split; [reflexivity|].
  apply (Hseek orphan_head 1%Q). reflexivity.
Defined.

(** ** Claims about [Device.device] *)

Section DeviceSetter.

Import Device.

Variable query_devices : DeviceType -> result DeviceInfo.

(** No nesting depth lets the setter return: every path through it raises
    or calls the setter again. *)
Lemma set_device_no_return (depth : nat) :
  forall (identifier : DeviceType) (self self' : t),
    set_device query_devices depth identifier self <> Some (self', Ok tt).
Proof.
  induction depth as [|depth IH]; intros identifier self self'.
  - discriminate.
  - cbn [set_device].
    destruct (query_devices identifier) as [info|e]; [|discriminate].
    destruct (0 <? max_output_channels info); [apply IH|discriminate].
Qed.

(** The setter assigns [duplex] and nothing else: [_device] and [_stream]
    keep their values on every path. *)
Lemma set_device_keeps_device (depth : nat) :
  forall (identifier : DeviceType) (self self' : t) (r : result unit),
    set_device query_devices depth identifier self = Some (self', r) ->
    _device self' = _device self /\ _stream self' = _stream self.
Proof.
  induction depth as [|depth IH]; intros identifier self self' r.
  - discriminate.
  - cbn [set_device].
    destruct (query_devices identifier) as [info|e].
    + destruct (0 <? max_output_channels info).
      * intros Hrec. apply IH in Hrec. exact Hrec.
      * intros [= <- _]. split; reflexivity.
    + intros [= <- _]. split; reflexivity.
Qed.

(** A playable identifier that [identifier or 0] leaves as it is sends the
    setter into itself for ever. *)
Lemma set_device_recurses (identifier : DeviceType) (info : DeviceInfo) :
  query_devices identifier = Ok info ->
  0 < max_output_channels info ->
  or_zero identifier = identifier ->
  forall (depth : nat) (self : t),
    set_device query_devices depth identifier self = None.
Proof.
  intros Hquery Hout Hsame.
  induction depth as [|depth IH]; intros self; [reflexivity|].
  cbn [set_device]. rewrite Hquery.
  destruct (Z.ltb_spec 0 (max_output_channels info)) as [_|Hzero]; [|lia].
  rewrite Hsame. apply IH.
Qed.

(** C6.  Device guard: assigning an identifier whose capabilities report
    zero output channels raises the error [no_playback] in the outermost
    call of the setter, with the device object, its [_device], [duplex]
    and [_stream] included, exactly as before. *)
Theorem set_device_rejects_capture_only
    (identifier : DeviceType) (info : DeviceInfo) (self : t) (depth : nat) :
  query_devices identifier = Ok info ->
  max_output_channels info = 0 ->
  set_device query_devices (S depth) identifier self =
  Some (self, Raise no_playback).
Proof.
  intros Hquery Hzero. cbn [set_device].
  rewrite Hquery, Hzero. reflexivity.
Qed.

End DeviceSetter.

Lemma set_device_rejects_capture_only_witness :
  host (Device.DevId 3) = Ok (Device.mk_info 2 0) /\
  Device.set_device host 1 (Device.DevId 3) soundcard =
  Some (soundcard, Raise Device.no_playback).
Proof.
  split; [reflexivity|].
  apply (set_device_rejects_capture_only host (Device.DevId 3)
           (Device.mk_info 2 0) soundcard 0); reflexivity.
Defined.

(** ** The loop of an active head, sample by sample *)

Lemma position_after_add (p step : Q) (i j : nat) :
  position_after p step (i + j) =
  position_after (position_after p step i) step j.
Proof.
  revert p. induction i as [|i IH]; intros p; [reflexivity|].
  cbn. apply IH.
Qed.

Lemma position_after_value (p step : Q) (i : nat) :
  (position_after p step i == p + inject_Z (Z.of_nat i) * step)%Q.
Proof.
  revert p. induction i as [|i IH]; intros p.
  - cbn. ring.
  - cbn [position_after]. rewrite IH, Nat2Z.inj_succ.
    unfold Z.succ. rewrite inject_Z_plus. change (inject_Z 1) with 1%Q. ring.
Qed.

Lemma numpy_store_length {A} (a : list A) (i : nat) (v : A) :
  List.length (numpy_store a i v) = List.length a.
Proof.
  revert i. induction a as [|x a IH]; intros [|i]; cbn; auto.
Qed.

Lemma firstn_numpy_store {A} (a : list A) (i : nat) (v : A) :
  (i < List.length a)%nat ->
  firstn (S i) (numpy_store a i v) = firstn i a ++ [v].
Proof.
  revert i. induction a as [|x a IH]; intros [|i] Hi; cbn in *; try lia.
  - reflexivity.
  - f_equal. apply IH. lia.
Qed.

Lemma skipn_numpy_store {A} (a : list A) (i k : nat) (v : A) :
  skipn (S i + k) (numpy_store a i v) = skipn (S i + k) a.
Proof.
  revert i. induction a as [|x a IH]; intros [|i]; cbn; auto.
  apply IH.
Qed.

Lemma splice_numpy_store (buf : list Q) (a : nat) (v : Q) (vs : list Q) :
  (a < List.length buf)%nat ->
  splice (numpy_store buf a v) (S a) vs = splice buf a (v :: vs).
Proof.
  intros Ha. unfold splice.
  rewrite firstn_numpy_store by assumption.
  rewrite skipn_numpy_store.
  rewrite <- app_assoc. cbn [app List.length].
  now rewrite Nat.add_succ_r.
Qed.

Lemma splice_nil (buf : list Q) (a : nat) : splice buf a [] = buf.
Proof.
  unfold splice. cbn. rewrite Nat.add_0_r. apply firstn_skipn.
Qed.

Lemma splice_whole (buf vs : list Q) :
  List.length vs = List.length buf -> splice buf 0 vs = vs.
Proof.
  intros Hlen. unfold splice. cbn. rewrite Hlen, skipn_all.
  apply app_nil_r.
Qed.

Lemma collect_length (row : list Q) (step : Q) (n : nat) :
  forall p vs fault,
    collect row p step n = (vs, fault) ->
    (List.length vs <= n)%nat /\ (fault = None -> List.length vs = n).
Proof.
  induction n as [|n IH]; intros p vs fault; cbn.
  - intros [= <- <-]. split; auto.
  - destruct (sample_at row p) as [v|e].
    + destruct (collect row (p + step)%Q step n) as [vs' fault'] eqn:Hrest.
      intros [= <- <-]. destruct (IH _ _ _ Hrest) as [Hle Hall].
      cbn. split; [lia|]. intros Hnone. now rewrite Hall.
    + intros [= <- <-]. cbn. split; [lia|discriminate].
Qed.

Lemma advanced_zero (step : Q) (h : ReadHead.t) : advanced step 0 h = h.
Proof.
  destruct h. unfold advanced, ReadHead.set_frame, ReadHead.set_position.
  cbn. now rewrite Z.add_0_r.
Qed.

(** The loop of an active head, as the samples it collects: the head has
    advanced by the samples read, and the buffer holds them when none
    faulted. *)
Lemma read_loop_active (step : Q) (row : list Q) (n : nat) :
  forall (a : nat) (buf : list Q) (h : ReadHead.t),
    ReadHead.active h = true ->
    (a + n <= List.length buf)%nat ->
    ReadHead.read_loop step row (seq a n) buf h =
    (advanced step
       (List.length (fst (collect row (ReadHead.position h) step n))) h,
     match snd (collect row (ReadHead.position h) step n) with
     | None =>
         Ok (splice buf a (fst (collect row (ReadHead.position h) step n)))
     | Some e => Raise e
     end).
Proof.
  induction n as [|n IH]; intros a buf h Hact Hfit.
  - cbn. unfold ret. now rewrite advanced_zero, splice_nil.
  - cbn [seq ReadHead.read_loop collect].
    unfold bind at 1. unfold ReadHead.read_sample at 1.
    unfold bind, get, lift, modify, ret. rewrite Hact.
    fold (sample_at row (ReadHead.position h)).
    destruct (sample_at row (ReadHead.position h)) as [v|e].
    + cbn -[collect advanced splice].
      match goal with
      | |- ReadHead.read_loop _ _ _ ?b ?x = _ =>
          rewrite (IH (S a) b x)
      end.
      * cbn [ReadHead.position ReadHead.set_frame ReadHead.set_position].
        destruct (collect row (ReadHead.position h + step)%Q step n)
          as [vs fault].
        cbn [fst snd List.length]. f_equal.
        -- unfold advanced, ReadHead.set_frame, ReadHead.set_position.
           cbn. f_equal. lia.
        -- destruct fault; [reflexivity|].
           f_equal. apply splice_numpy_store. lia.
      * exact Hact.
      * rewrite numpy_store_length. lia.
    + cbn. now rewrite advanced_zero.
Qed.

(** [read] on an active head, once its preliminaries pass. *)
Lemma read_active (m : Mixer.t) (h : ReadHead.t) (row : list Q) :
  ReadHead.active h = true ->
  Mixer.rate m <> 0 ->
  0 <= Mixer.size m ->
  Clip.get_channel (ReadHead.clip h) (ReadHead.channel h) = Ok row ->
  ReadHead.read m h =
  (advanced (step_of m h)
     (List.length
        (fst (collect row (ReadHead.position h) (step_of m h)
                (Z.to_nat (Mixer.size m))))) h,
   match snd (collect row (ReadHead.position h) (step_of m h)
                (Z.to_nat (Mixer.size m))) with
   | None =>
       Ok (fst (collect row (ReadHead.position h) (step_of m h)
                  (Z.to_nat (Mixer.size m))))
   | Some e => Raise e
   end).
Proof.
  intros Hact Hrate Hsize Hrow.
  rewrite (read_enters_loop m h row Hrate Hsize Hrow).
  fold (step_of m h).
  rewrite read_loop_active; [|assumption|rewrite repeat_length; lia].
  destruct (collect row (ReadHead.position h) (step_of m h)
              (Z.to_nat (Mixer.size m))) as [vs fault] eqn:Hrun.
  cbn [fst snd]. destruct fault; [reflexivity|].
  destruct (collect_length _ _ _ _ _ _ Hrun) as [_ Hall].
  rewrite splice_whole; [reflexivity|].
  rewrite repeat_length. now apply Hall.
Qed.

Lemma collect_nth (row : list Q) (step : Q) (n : nat) :
  forall p vs,
    collect row p step n = (vs, None) ->
    forall i, (i < n)%nat ->
      sample_at row (position_after p step i) = Ok (nth i vs 0%Q).
Proof.
  induction n as [|n IH]; intros p vs Hrun i Hi; [lia|].
  cbn in Hrun.
  destruct (sample_at row p) as [v|e] eqn:Hhere; [|discriminate].
  destruct (collect row (p + step)%Q step n) as [vs' fault] eqn:Hrest.
  injection Hrun as <- ->.
  destruct i as [|i]; [exact Hhere|].
  cbn. apply (IH _ _ Hrest). lia.
Qed.

Lemma collect_prefix (row : list Q) (step : Q) (k : nat) :
  forall p n,
    (forall i, (i < k)%nat ->
       exists v, sample_at row (position_after p step i) = Ok v) ->
    exists vs,
      List.length vs = k /\
      collect row p step (k + n) =
      (vs ++ fst (collect row (position_after p step k) step n),
       snd (collect row (position_after p step k) step n)).
Proof.
  induction k as [|k IH]; intros p n Hok.
  - exists []. split; [reflexivity|]. cbn [plus position_after app].
    now destruct (collect row p step n).
  - destruct (Hok 0%nat) as [v Hv]; [lia|]. cbn in Hv.
    destruct (IH (p + step)%Q n) as (vs & Hlen & Hrun).
    { intros i Hi. apply (Hok (S i)). lia. }
    exists (v :: vs). split; [cbn; now rewrite Hlen|].
    cbn [plus collect position_after]. rewrite Hv, Hrun. reflexivity.
Qed.

Lemma collect_app (row : list Q) (step : Q) (n1 n2 : nat) :
  forall p vs1,
    collect row p step n1 = (vs1, None) ->
    collect row p step (n1 + n2) =
    (vs1 ++ fst (collect row (position_after p step n1) step n2),
     snd (collect row (position_after p step n1) step n2)).
Proof.
  induction n1 as [|n1 IH]; intros p vs1 Hrun.
  - cbn in Hrun. injection Hrun as <-. cbn [plus position_after app].
    now destruct (collect row p step n2).
  - cbn in Hrun. cbn [plus collect position_after].
    destruct (sample_at row p) as [v|e]; [|discriminate].
    destruct (collect row (p + step)%Q step n1) as [vs fault] eqn:Hrest.
    injection Hrun as <- ->.
    rewrite (IH _ _ Hrest). reflexivity.
Qed.

Lemma advanced_add (step : Q) (k1 k2 : nat) (h : ReadHead.t) :
  advanced step (k1 + k2) h = advanced step k2 (advanced step k1 h).
Proof.
  unfold advanced, ReadHead.set_frame, ReadHead.set_position.
  cbn. rewrite position_after_add. f_equal. lia.
Qed.

(** What a returning [read] has passed on its way to the loop. *)
Lemma read_ok_preliminaries (m : Mixer.t) (h h' : ReadHead.t)
    (output : list Q) :
  ReadHead.read m h = (h', Ok output) ->
  Mixer.rate m <> 0 /\ 0 <= Mixer.size m /\
  exists row,
    Clip.get_channel (ReadHead.clip h) (ReadHead.channel h) = Ok row.
Proof.
  unfold ReadHead.read, bind, lift, get, numpy_zeros, truediv.
  destruct (Z.ltb_spec (Mixer.size m) 0) as [Hneg|Hsize]; [discriminate|].
  destruct (Qeq_bool (inject_Z (Mixer.rate m)) 0) eqn:Hzero; [discriminate|].
  destruct (Clip.get_channel (ReadHead.clip h) (ReadHead.channel h))
    as [row|e]; [|discriminate].
  intros _. split; [|split; [assumption|now exists row]].
  intros Hrate. now rewrite Qeq_bool_inject_Z_zero in Hzero.
Qed.

(** The row of a head that keeps the head invariant has the clip's
    length. *)
Lemma bound_head_row_length (h : ReadHead.t) :
  ReadHead.bound h ->
  exists row,
    Clip.get_channel (ReadHead.clip h) (ReadHead.channel h) = Ok row /\
    Z.of_nat (List.length row) = Clip.length (ReadHead.clip h).
Proof.
  intros Hbound. destruct (bound_head_has_row h Hbound) as [row Hrow].
  exists row. split; [exact Hrow|].
  destruct Hbound as [[_ Hrows] _].
  unfold Clip.get_channel, numpy_index in Hrow.
  destruct (_ && _); [|discriminate].
  destruct (nth_error (Clip.data (ReadHead.clip h)) _) as [row'|] eqn:Hnth;
    [|discriminate].
  injection Hrow as ->. apply nth_error_In in Hnth.
  rewrite Forall_forall in Hrows. now apply Hrows.
Qed.

Lemma sample_at_in_range (row : list Q) (p : Q) :
  - Z.of_nat (List.length row) <= py_int p < Z.of_nat (List.length row) ->
  exists v, sample_at row p = Ok v.
Proof.
  intros Hin. unfold sample_at.
  destruct (Z.lt_ge_cases (py_int p) 0) as [Hneg|Hpos].
  - destruct (numpy_index_back row (py_int p)) as (v & _ & Hv); [lia|].
    now exists v.
  - destruct (numpy_index_front row (py_int p)) as (v & _ & Hv); [lia|].
    now exists v.
Qed.

Lemma sample_at_out_of_range (row : list Q) (p : Q) :
  ~ (- Z.of_nat (List.length row) <= py_int p < Z.of_nat (List.length row)) ->
  sample_at row p = Raise IndexError.
Proof.
  intros Hout. apply numpy_index_outside. lia.
Qed.

(** ** Further properties of [ReadHead.read] *)

(** X12.  Two calls of [read] that return leave the head where one call
    for the sum of the sizes leaves it, and their buffers, one after the
    other, are the buffer of that call: nothing is lost or repeated between
    buffers. *)
Theorem read_composes (rate n1 n2 : Z) (h h1 h2 : ReadHead.t)
    (o1 o2 : list Q) :
  ReadHead.read (Mixer.mk rate n1) h = (h1, Ok o1) ->
  ReadHead.read (Mixer.mk rate n2) h1 = (h2, Ok o2) ->
  ReadHead.read (Mixer.mk rate (n1 + n2)) h = (h2, Ok (o1 ++ o2)).
Proof.
  intros Hfirst Hsecond.
  destruct (read_ok_preliminaries _ _ _ _ Hfirst) as (Hrate & Hn1 & row & Hrow).
  destruct (read_ok_preliminaries _ _ _ _ Hsecond) as (_ & Hn2 & _).
  cbn [Mixer.rate Mixer.size] in Hrate, Hn1, Hn2.
  assert (Hsum : Z.to_nat (n1 + n2) = (Z.to_nat n1 + Z.to_nat n2)%nat)
    by (apply Z2Nat.inj_add; assumption).
  destruct (ReadHead.active h) eqn:Hact.
  - rewrite (read_active (Mixer.mk rate n1) h row Hact Hrate Hn1 Hrow) in Hfirst.
    cbn [Mixer.size] in Hfirst.
    change (step_of (Mixer.mk rate n1) h)
      with (step_of (Mixer.mk rate (n1 + n2)) h) in Hfirst.
    set (step := step_of (Mixer.mk rate (n1 + n2)) h) in *.
    destruct (collect row (ReadHead.position h) step (Z.to_nat n1))
      as [vs1 fault1] eqn:Hrun1.
    cbn [fst snd] in Hfirst. destruct fault1 as [e|]; [discriminate|].
    injection Hfirst as <- <-.
    destruct (collect_length _ _ _ _ _ _ Hrun1) as [_ Hlen1].
    specialize (Hlen1 eq_refl).
    rewrite (read_active (Mixer.mk rate n2) (advanced step (List.length vs1) h) row)
      in Hsecond; [|exact Hact|exact Hrate|exact Hn2|exact Hrow].
    cbn [Mixer.size] in Hsecond.
    change (step_of (Mixer.mk rate n2) (advanced step (List.length vs1) h))
      with step in Hsecond.
    change (ReadHead.position (advanced step (List.length vs1) h))
      with (position_after (ReadHead.position h) step (List.length vs1))
      in Hsecond.
    rewrite Hlen1 in Hsecond.
    rewrite (read_active (Mixer.mk rate (n1 + n2)) h row Hact Hrate)
      by (cbn; first [lia|exact Hrow]).
    cbn [Mixer.size]. fold step. rewrite Hsum.
    rewrite (collect_app _ _ _ _ _ _ Hrun1).
    destruct (collect row (position_after (ReadHead.position h) step
                             (Z.to_nat n1)) step (Z.to_nat n2))
      as [vs2 fault2].
    cbn [fst snd] in *. destruct fault2 as [e|]; [discriminate|].
    injection Hsecond as <- <-.
    rewrite length_app, advanced_add, Hlen1. reflexivity.
  - rewrite (read_enters_loop (Mixer.mk rate n1) h row Hrate Hn1 Hrow) in Hfirst.
    rewrite read_loop_inactive in Hfirst by assumption.
    injection Hfirst as <- <-.
    match type of Hsecond with
    | ReadHead.read ?m2 ?x = _ =>
        rewrite (read_enters_loop m2 x row Hrate Hn2 Hrow) in Hsecond
    end.
    rewrite read_loop_inactive in Hsecond by assumption.
    injection Hsecond as <- <-.
    rewrite (read_enters_loop (Mixer.mk rate (n1 + n2)) h row Hrate)
      by (cbn; first [lia|exact Hrow]).
    rewrite read_loop_inactive by assumption.
    cbn [Mixer.size]. rewrite !length_seq, Hsum, repeat_app.
    unfold ReadHead.set_frame. cbn. do 2 f_equal. lia.
Qed.

Lemma read_composes_witness :
  exists h1 h2,
    ReadHead.read (Mixer.mk 4 1) (ramp_head 0 1) = (h1, Ok [0%Q]) /\
    ReadHead.read (Mixer.mk 4 2) h1 = (h2, Ok [1; 2]%Q) /\
    ReadHead.read (Mixer.mk 4 (1 + 2)) (ramp_head 0 1) =
    (h2, Ok ([0%Q] ++ [1; 2]%Q)).
Proof.
  set (h1 := fst (ReadHead.read (Mixer.mk 4 1) (ramp_head 0 1))).
  set (h2 := fst (ReadHead.read (Mixer.mk 4 2) h1)).
  exists h1, h2.
  split; [reflexivity|]. split; [reflexivity|].
  apply (read_composes 4 1 2 (ramp_head 0 1) h1 h2 [0%Q] [1; 2]%Q);
    reflexivity.
Defined.

Lemma py_int_integer (q : Q) (z : Z) :
  (q == inject_Z z)%Q -> py_int q = z.
Proof.
  destruct q as [a d]. unfold Qeq, py_int, inject_Z. cbn.
  intros Heq. rewrite Z.mul_1_r in Heq. subst a.
  apply Z.quot_mul. discriminate.
Qed.

Lemma collect_samples_in_row (row : list Q) (step : Q) (n : nat) :
  forall p, Forall (fun v => In v row) (fst (collect row p step n)).
Proof.
  induction n as [|n IH]; intros p; cbn; [constructor|].
  destruct (sample_at row p) as [v|e] eqn:Hv; [|constructor].
  specialize (IH (p + step)%Q).
  destruct (collect row (p + step)%Q step n) as [vs fault].
  cbn in *. constructor; [|exact IH].
  unfold sample_at, numpy_index in Hv.
  destruct (_ && _); [|discriminate].
  destruct (nth_error row _) as [x|] eqn:Hnth; [|discriminate].
  injection Hv as <-. now apply nth_error_In in Hnth.
Qed.

Lemma all_zero_is_repeat (l : list Q) :
  Forall (fun v => v = 0%Q) l -> l = repeat 0%Q (List.length l).
Proof.
  induction 1 as [|v l Hv _ IH]; [reflexivity|].
  cbn. now rewrite Hv, <- IH.
Qed.

(** X13.  Playback at the clip's own pace copies the clip: an active head
    at a whole position [p0 >= 0] whose step is 1, read for [n] samples with
    [p0 + n] within the clip length, returns the [n] samples of its channel
    row from index [p0] on and stands at [p0 + n]. *)
Theorem read_native_rate_copies (m : Mixer.t) (h : ReadHead.t) (p0 : Z) :
  ReadHead.active h = true ->
  ReadHead.bound h ->
  Mixer.rate m <> 0 ->
  0 <= Mixer.size m ->
  (step_of m h == 1)%Q ->
  (ReadHead.position h == inject_Z p0)%Q ->
  0 <= p0 ->
  p0 + Mixer.size m <= Clip.length (ReadHead.clip h) ->
  exists h' row,
    Clip.get_channel (ReadHead.clip h) (ReadHead.channel h) = Ok row /\
    ReadHead.read m h =
    (h', Ok (firstn (Z.to_nat (Mixer.size m)) (skipn (Z.to_nat p0) row))) /\
    (ReadHead.position h' == inject_Z (p0 + Mixer.size m))%Q.
Proof.
  intros Hact Hbound Hrate Hsize Hstep Hpos Hp0 Hfit.
  destruct (bound_head_row_length h Hbound) as (row & Hrow & Hlen).
  assert (Hidx : forall i : nat,
             py_int (position_after (ReadHead.position h) (step_of m h) i) =
             p0 + Z.of_nat i).
  { intros i. apply py_int_integer.
    rewrite position_after_value, Hstep, Hpos, inject_Z_plus. ring. }
  rewrite (read_active m h row Hact Hrate Hsize Hrow).
  set (n := Z.to_nat (Mixer.size m)).
  destruct (collect_prefix row (step_of m h) n (ReadHead.position h) 0)
    as (vs & Hvs & Hrun).
  { intros i Hi. apply sample_at_in_range. rewrite Hidx. lia. }
  rewrite Nat.add_0_r in Hrun. cbn [collect fst snd] in Hrun.
  rewrite app_nil_r in Hrun. rewrite Hrun. cbn [fst snd].
  exists (advanced (step_of m h) (List.length vs) h), row.
  split; [exact Hrow|]. split.
  - do 2 f_equal. apply (nth_ext _ _ 0%Q 0%Q).
    + rewrite length_firstn, length_skipn, Hvs. lia.
    + intros i Hi. rewrite Hvs in Hi.
      pose proof (collect_nth _ _ _ _ _ Hrun i Hi) as Hsample.
      unfold sample_at in Hsample. rewrite Hidx in Hsample.
      destruct (numpy_index_front row (p0 + Z.of_nat i)) as (x & Hnth & Hx);
        [lia|].
      rewrite Hx in Hsample. injection Hsample as <-.
      rewrite nth_firstn.
      destruct (Nat.ltb_spec i n) as [_|Hbig]; [|lia].
      rewrite nth_skipn.
      replace (Z.to_nat (p0 + Z.of_nat i)) with (Z.to_nat p0 + i)%nat
        in Hnth by lia.
      symmetry. now apply nth_error_nth.
  - cbn. rewrite Hvs, position_after_value, Hstep, Hpos.
    unfold n. rewrite Z2Nat.id by assumption.
    rewrite inject_Z_plus. ring.
Qed.

Lemma read_native_rate_copies_witness :
  ReadHead.active (ramp_head 1 1) = true /\
  ReadHead.bound (ramp_head 1 1) /\
  exists h',
    ReadHead.read (Mixer.mk 4 3) (ramp_head 1 1) = (h', Ok [1; 2; 3]%Q) /\
    (ReadHead.position h' == 4)%Q.
Proof.
  assert (Hbound : ReadHead.bound (ramp_head 1 1)).
  { repeat split; cbn; try lia. repeat constructor. }
  split; [reflexivity|]. split; [exact Hbound|].
  destruct (read_native_rate_copies (Mixer.mk 4 3) (ramp_head 1 1) 1
              eq_refl Hbound) as (h' & row & Hrow & Hread & Hpos).
  - cbn. lia.
  - cbn. lia.
  - reflexivity.
  - reflexivity.
  - lia.
  - cbn. lia.
  - exists h'. vm_compute in Hrow. injection Hrow as <-.
    split; [exact Hread|exact Hpos].
Defined.

(** X14.  A clip fresh from [new] plays as silence: every call of [read]
    that returns on a head over it, active or not, returns a buffer of
    [mixer.size] zeros. *)
Theorem read_blank_clip_silent (self c : Clip.t) (channels length : Z)
    (m : Mixer.t) (h h' : ReadHead.t) (output : list Q) :
  Clip.new channels length self = (c, Ok tt) ->
  ReadHead.clip h = c ->
  ReadHead.read m h = (h', Ok output) ->
  output = repeat 0%Q (Z.to_nat (Mixer.size m)).
Proof.
  intros Hnew Hclip Hread.
  assert (Hdata : Clip.data c =
                  repeat (repeat 0%Q (Z.to_nat length)) (Z.to_nat channels)).
  { unfold Clip.new, bind, modify, lift, numpy_zeros2 in Hnew.
    destruct (_ || _); [discriminate|].
    injection Hnew as <-. reflexivity. }
  destruct (read_ok_preliminaries m h h' output Hread)
    as (Hrate & Hsize & row & Hrow).
  assert (Hzero : forall v, In v row -> v = 0%Q).
  { intros v Hv. unfold Clip.get_channel, numpy_index in Hrow.
    destruct (_ && _); [|discriminate].
    destruct (nth_error (Clip.data (ReadHead.clip h)) _) as [row'|] eqn:Hnth;
      [|discriminate].
    injection Hrow as ->. apply nth_error_In in Hnth.
    rewrite Hclip, Hdata in Hnth. apply repeat_spec in Hnth. subst row.
    now apply repeat_spec in Hv. }
  destruct (ReadHead.active h) eqn:Hact.
  - rewrite (read_active m h row Hact Hrate Hsize Hrow) in Hread.
    pose proof (collect_samples_in_row row (step_of m h)
                  (Z.to_nat (Mixer.size m)) (ReadHead.position h)) as Hin.
    destruct (collect row (ReadHead.position h) (step_of m h)
                (Z.to_nat (Mixer.size m))) as [vs fault] eqn:Hrun.
    cbn [fst snd] in *. destruct fault as [e|]; [discriminate|].
    injection Hread as _ <-.
    destruct (collect_length _ _ _ _ _ _ Hrun) as [_ Hlen].
    rewrite <- (Hlen eq_refl). apply all_zero_is_repeat.
    apply (Forall_impl _ Hzero Hin).
  - rewrite (read_enters_loop m h row Hrate Hsize Hrow) in Hread.
    rewrite read_loop_inactive in Hread by assumption.
    now injection Hread as _ <-.
Qed.

Lemma read_blank_clip_silent_witness :
  let c := fst (Clip.new 1 4 blank) in
  let h := ReadHead.mk 0 c 0 0 1 true in
  Clip.new 1 4 blank = (c, Ok tt) /\
  exists h' output,
    ReadHead.read (Mixer.mk 44100 3) h = (h', Ok output) /\
    output = repeat 0%Q (Z.to_nat 3).
Proof.
  cbv zeta.
  set (c := fst (Clip.new 1 4 blank)).
  set (h := ReadHead.mk 0 c 0 0 1 true).
  set (r := ReadHead.read (Mixer.mk 44100 3) h).
  assert (Hread : r = (fst r, Ok [0; 0; 0]%Q)) by reflexivity.
  split; [reflexivity|].
  exists (fst r), [0; 0; 0]%Q. split; [exact Hread|].
  apply (read_blank_clip_silent blank c 1 4 (Mixer.mk 44100 3) h
           (fst r) [0; 0; 0]%Q eq_refl eq_refl Hread).
Defined.

(** X7.  Whatever its outcome, [read] leaves [clip], [channel], [speed] and
    [active] as they were: it moves [frame] and [position] only. *)
Theorem read_keeps_configuration (m : Mixer.t) (h : ReadHead.t) :
  let h' := fst (ReadHead.read m h) in
  ReadHead.clip h' = ReadHead.clip h /\
  ReadHead.channel h' = ReadHead.channel h /\
  ReadHead.speed h' = ReadHead.speed h /\
  ReadHead.active h' = ReadHead.active h.
Proof.
  cbv zeta.
  unfold ReadHead.read, bind, lift, get, numpy_zeros, truediv.
  destruct (Mixer.size m <? 0); [cbn; auto|].
  destruct (Qeq_bool (inject_Z (Mixer.rate m)) 0); [cbn; auto|].
  destruct (Clip.get_channel (ReadHead.clip h) (ReadHead.channel h))
    as [row|e]; [|cbn; auto].
  match goal with
  | |- context [ReadHead.read_loop ?s ?d ?ix ?o ?x] =>
      pose proof (read_loop_frame s d ix o x) as Hinv;
      destruct (ReadHead.read_loop s d ix o x) as [h' r]
  end.
  destruct Hinv as (Hc & Hch & Hs & Ha & _).
  cbn [fst]. auto.
Qed.

(** X8.  The faults of [read] ahead of its loop, in the order the code
    meets them: a negative [mixer.size] is a [ValueError], then a zero
    [mixer.rate] a [ZeroDivisionError], then a channel outside the rows of
    the clip's data an [IndexError]; each leaves the head as it was, also
    when the head is inactive. *)
Theorem read_faults_before_loop (m : Mixer.t) (h : ReadHead.t) :
  (Mixer.size m < 0 ->
   exists msg, ReadHead.read m h = (h, Raise (ValueError msg))) /\
  (0 <= Mixer.size m -> Mixer.rate m = 0 ->
   ReadHead.read m h = (h, Raise ZeroDivisionError)) /\
  (0 <= Mixer.size m -> Mixer.rate m <> 0 ->
   (ReadHead.channel h <
    - Z.of_nat (List.length (Clip.data (ReadHead.clip h))) \/
    Z.of_nat (List.length (Clip.data (ReadHead.clip h))) <=
    ReadHead.channel h) ->
   ReadHead.read m h = (h, Raise IndexError)).
Proof.
  unfold ReadHead.read, bind, lift, get, numpy_zeros, truediv.
  split; [|split].
  - intros Hneg. destruct (Z.ltb_spec (Mixer.size m) 0); [|lia].
    eexists. reflexivity.
  - intros Hsize Hrate. destruct (Z.ltb_spec (Mixer.size m) 0); [lia|].
    now rewrite Qeq_bool_inject_Z_zero.
  - intros Hsize Hrate Hout.
    destruct (Z.ltb_spec (Mixer.size m) 0); [lia|].
    rewrite Qeq_bool_inject_Z_nonzero by assumption.
    unfold Clip.get_channel. now rewrite numpy_index_outside.
Qed.

Lemma read_faults_before_loop_witness :
  (exists msg,
      ReadHead.read (Mixer.mk 4 (-1)) parked_head =
      (parked_head, Raise (ValueError msg))) /\
  ReadHead.read (Mixer.mk 0 3) parked_head =
  (parked_head, Raise ZeroDivisionError) /\
  ReadHead.read (Mixer.mk 4 3) (ReadHead.mk 0 ramp 1 0 1 false) =
  (ReadHead.mk 0 ramp 1 0 1 false, Raise IndexError).
Proof.
  split; [|split].
  - apply (proj1 (read_faults_before_loop (Mixer.mk 4 (-1)) parked_head)).
    reflexivity.
  - apply (proj1 (proj2 (read_faults_before_loop (Mixer.mk 0 3) parked_head)));
      [discriminate|reflexivity].
  - apply (proj2 (proj2 (read_faults_before_loop (Mixer.mk 4 3)
                           (ReadHead.mk 0 ramp 1 0 1 false))));
      [discriminate|discriminate|right; cbn; lia].
Defined.

(** ** Further properties of [ReadHead.__init__] and [ReadHead.seek] *)

(** Two values of [[0, y)] that differ by a whole multiple of [y] are
    equal. *)
Lemma remainder_unique (q1 q2 y : Q) (k : Z) :
  (0 <= q1)%Q -> (q1 < y)%Q -> (0 <= q2)%Q -> (q2 < y)%Q ->
  (q1 - q2 == inject_Z k * y)%Q ->
  (q1 == q2)%Q.
Proof.
  intros Hq1 Hq1' Hq2 Hq2' Hdiff.
  assert (Hy : (0 < y)%Q) by lra.
  destruct (Z.lt_trichotomy k 0) as [Hneg|[Hzero|Hpos]].
  - assert (Hk : (inject_Z k <= -1)%Q).
    { change (-1)%Q with (inject_Z (-1)). rewrite <- Zle_Qle. lia. }
    nra.
  - subst k. change (inject_Z 0) with 0%Q in Hdiff. lra.
  - assert (Hk : (1 <= inject_Z k)%Q).
    { change 1%Q with (inject_Z 1). rewrite <- Zle_Qle. lia. }
    nra.
Qed.

Lemma pymod_positive (p : Q) (L : Z) :
  0 < L ->
  pymod p (inject_Z L) =
  Ok (p - inject_Z L * inject_Z (Qfloor (p / inject_Z L)))%Q.
Proof.
  intros HL. unfold pymod. now rewrite Qeq_bool_inject_Z_nonzero by lia.
Qed.

Lemma inject_Z_positive (L : Z) : 0 < L -> (0 < inject_Z L)%Q.
Proof.
  intros HL. change 0%Q with (inject_Z 0). now rewrite <- Zlt_Qlt.
Qed.

(** X2.  [ReadHead.__init__] faults exactly when the clip has no channel or
    no sample, and then always with [ZeroDivisionError]; negative counts do
    not make it fault. *)
Theorem init_faults_exactly (clip : Clip.t) (channel : Z)
    (position speed : Q) (active : bool) :
  (ReadHead.init clip channel position speed active =
   Raise ZeroDivisionError <->
   Clip.channels clip = 0 \/ Clip.length clip = 0) /\
  (forall e,
      ReadHead.init clip channel position speed active = Raise e ->
      e = ZeroDivisionError).
Proof.
  unfold ReadHead.init, pymod_int, pymod.
  destruct (Z.eqb_spec (Clip.channels clip) 0) as [Hch|Hch].
  - split; [split; auto|]. now intros e [= <-].
  - destruct (Z.eq_dec (Clip.length clip) 0) as [Hlen|Hlen].
    + rewrite Qeq_bool_inject_Z_zero by assumption.
      split; [split; auto|]. now intros e [= <-].
    + rewrite Qeq_bool_inject_Z_nonzero by assumption.
      split; [split; [discriminate|intros [?|?]; contradiction]|].
      discriminate.
Qed.

(** X3.  [seek] is periodic in the clip length [L > 0]: seeking to
    [p + k * L] leaves the head at the same position as seeking to [p]. *)
Theorem seek_periodic (h : ReadHead.t) (p : Q) (k : Z) :
  0 < Clip.length (ReadHead.clip h) ->
  (ReadHead.position
     (fst (ReadHead.seek
             (p + inject_Z k * inject_Z (Clip.length (ReadHead.clip h))) h))
   == ReadHead.position (fst (ReadHead.seek p h)))%Q.
Proof.
  intros Hlen.
  unfold ReadHead.seek, bind, get, lift, modify, ret.
  rewrite !pymod_positive by assumption.
  cbn [fst ReadHead.position ReadHead.set_position ReadHead.clip].
  set (L := inject_Z (Clip.length (ReadHead.clip h))).
  pose proof (inject_Z_positive _ Hlen) as HL. fold L in HL.
  destruct (floor_remainder_range (p + inject_Z k * L) L HL) as [Ha Ha'].
  destruct (floor_remainder_range p L HL) as [Hb Hb'].
  apply (remainder_unique _ _ L
           (k - Qfloor ((p + inject_Z k * L) / L) + Qfloor (p / L)));
    try assumption.
  unfold Z.sub. rewrite !inject_Z_plus, inject_Z_opp. ring.
Qed.

Lemma seek_periodic_witness :
  0 < Clip.length (ReadHead.clip (ramp_head 0 1)) /\
  (ReadHead.position
     (fst (ReadHead.seek ((1 # 2) + inject_Z (-3) * inject_Z 4) (ramp_head 0 1)))
   == ReadHead.position (fst (ReadHead.seek (1 # 2) (ramp_head 0 1))))%Q.
Proof.
  split; [reflexivity|].
  apply (seek_periodic (ramp_head 0 1) (1 # 2) (-3)). reflexivity.
Defined.

(** ** Further properties of [Clip.new] *)

(** X15.  [new] is not atomic: called with a negative dimension it raises
    after it has assigned [channels] and [length], with [data] and [rate]
    as they were, so that the clip no longer has the shape its attributes
    announce. *)
Theorem new_failure_is_partial (self : Clip.t) (channels length : Z) :
  channels < 0 \/ length < 0 ->
  let c := fst (Clip.new channels length self) in
  Clip.channels c = channels /\
  Clip.length c = length /\
  Clip.data c = Clip.data self /\
  Clip.rate c = Clip.rate self /\
  (channels < 0 \/ Clip.data self <> [] -> ~ Clip.shaped c).
Proof.
  intros Hneg. cbv zeta.
  unfold Clip.new, bind, modify, lift, numpy_zeros2.
  assert (Htest : (channels <? 0) || (length <? 0) = true).
  { apply orb_true_iff. rewrite !Z.ltb_lt. exact Hneg. }
  rewrite Htest. cbn.
  repeat (split; [reflexivity|]).
  intros Hwhy [Hrows Hcols]. cbn in Hrows, Hcols.
  destruct Hneg as [Hc|Hl]; [lia|].
  destruct Hwhy as [Hc|Hdata]; [lia|].
  destruct (Clip.data self) as [|row rest]; [contradiction|].
  inversion Hcols as [|? ? Hrow _]. lia.
Qed.

Lemma new_failure_is_partial_witness :
  (1 < 0 \/ -5 < 0) /\
  Clip.length (fst (Clip.new 1 (-5) ramp)) = -5 /\
  Clip.data (fst (Clip.new 1 (-5) ramp)) = Clip.data ramp /\
  ~ Clip.shaped (fst (Clip.new 1 (-5) ramp)).
Proof.
  assert (Hneg : 1 < 0 \/ -5 < 0) by (right; lia).
  split; [exact Hneg|].
  destruct (new_failure_is_partial ramp 1 (-5) Hneg)
    as (_ & Hlen & Hdata & _ & Hshape).
  split; [exact Hlen|]. split; [exact Hdata|].
  apply Hshape. right. discriminate.
Defined.

(** ** Further properties of the [Device.device] setter *)

Lemma or_zero_idempotent (identifier : Device.DeviceType) :
  Device.or_zero (Device.or_zero identifier) = Device.or_zero identifier.
Proof.
  destruct identifier as [|n|[|a s]]; cbn; try reflexivity.
  destruct (Z.eqb_spec n 0) as [->|Hn]; [reflexivity|].
  cbn. now apply Z.eqb_neq in Hn as ->.
Qed.

(** X16.  The setter is decided within two nested calls: whatever the
    identifier and the host, allowing more than two nested calls never
    changes the outcome, which is an exception raised by the first or the
    second call, or a recursion that no depth ends. *)
Theorem set_device_decided_in_two
    (query_devices : Device.DeviceType -> result Device.DeviceInfo)
    (identifier : Device.DeviceType) (self : Device.t) (depth : nat) :
  Device.set_device query_devices (2 + depth) identifier self =
  Device.set_device query_devices 2 identifier self.
Proof.
  cbn [plus Device.set_device].
  destruct (query_devices identifier) as [info|e]; [|reflexivity].
  destruct (0 <? Device.max_output_channels info); [|reflexivity].
  destruct (query_devices (Device.or_zero identifier)) as [info'|e] eqn:Hquery;
    [|reflexivity].
  destruct (Z.ltb_spec 0 (Device.max_output_channels info')) as [Hout|_];
    [|reflexivity].
  rewrite or_zero_idempotent.
  apply (set_device_recurses query_devices (Device.or_zero identifier) info'
           Hquery Hout (or_zero_idempotent identifier)).
Qed.

(** ** The tone generator *)

Lemma phase_range (n : Z) : 0 <= phase n < 1024.
Proof. unfold phase. apply Z.mod_pos_bound. lia. Qed.

Lemma numpy_store_middle {A} (pre : list A) (x y : A) (post : list A) :
  numpy_store (pre ++ x :: post) (List.length pre) y = pre ++ y :: post.
Proof.
  induction pre as [|z pre IH]; cbn; [reflexivity|]. now rewrite IH.
Qed.

Lemma nth_error_middle {A} (pre : list A) (x : A) (post : list A) :
  nth_error (pre ++ x :: post) (List.length pre) = Some x.
Proof.
  induction pre as [|z pre IH]; cbn; [reflexivity|]. exact IH.
Qed.

Section ToneFacts.

Variable sintable : list Q.
Hypothesis sintable_length : List.length sintable = 1024%nat.

Lemma sintable_lookup (n : Z) :
  numpy_index sintable (phase n) =
  Ok (nth (Z.to_nat (phase n)) sintable 0%Q).
Proof.
  pose proof (phase_range n) as Hrange.
  destruct (numpy_index_front sintable (phase n)) as (v & Hnth & Hv).
  { rewrite sintable_length. lia. }
  rewrite Hv. f_equal. symmetry. now apply nth_error_nth.
Qed.

(** One iteration of [fill] on a row of at least two columns. *)
Lemma fill_sample_row (frame : Z) (pre : list (list Q)) (row : list Q)
    (post : list (list Q)) :
  (2 <= List.length row)%nat ->
  fill_sample sintable frame (List.length pre) (pre ++ row :: post) =
  (pre ++ tone_row sintable frame (List.length pre) row :: post, Ok tt).
Proof.
  intros Hwide.
  unfold fill_sample, bind, lift, update, numpy_store2.
  rewrite sintable_lookup.
  rewrite nth_error_middle.
  destruct row as [|x [|y row]]; cbn in Hwide; try lia.
  cbn [List.length Nat.ltb Nat.leb numpy_store].
  rewrite numpy_store_middle, nth_error_middle.
  cbn [List.length Nat.ltb Nat.leb numpy_store].
  rewrite numpy_store_middle. reflexivity.
Qed.

Lemma fill_loop_rows (frame : Z) (rows : list (list Q)) :
  forall (pre post : list (list Q)),
    Forall (fun row => (2 <= List.length row)%nat) rows ->
    fill_loop sintable frame (seq (List.length pre) (List.length rows))
      (pre ++ rows ++ post) =
    (pre ++ tone_rows sintable frame (List.length pre) rows ++ post, Ok tt).
Proof.
  induction rows as [|row rows IH]; intros pre post Hwide; [reflexivity|].
  inversion Hwide as [|? ? Hrow Hrest]; subst.
  cbn [List.length seq fill_loop app tone_rows]. unfold bind.
  rewrite fill_sample_row by assumption.
  specialize (IH (pre ++ [tone_row sintable frame (List.length pre) row])
                 post Hrest).
  rewrite length_app, Nat.add_1_r, <- !app_assoc in IH.
  exact IH.
Qed.

Lemma tone_rows_length (frame : Z) (rows : list (list Q)) :
  forall a, List.length (tone_rows sintable frame a rows) = List.length rows.
Proof.
  induction rows as [|row rows IH]; intros a; cbn; [reflexivity|].
  now rewrite IH.
Qed.

Lemma tone_rows_nth (frame : Z) (rows : list (list Q)) :
  forall a i,
    (i < List.length rows)%nat ->
    nth i (tone_rows sintable frame a rows) [] =
    tone_row sintable frame (a + i) (nth i rows []).
Proof.
  induction rows as [|row rows IH]; intros a i Hi; cbn in Hi; [lia|].
  destruct i as [|i]; cbn [tone_rows nth].
  - now rewrite Nat.add_0_r.
  - rewrite IH by lia. f_equal. lia.
Qed.

Lemma tone_rows_app (frame : Z) (rows1 rows2 : list (list Q)) :
  forall a,
    tone_rows sintable frame a (rows1 ++ rows2) =
    tone_rows sintable frame a rows1 ++
    tone_rows sintable frame (a + List.length rows1) rows2.
Proof.
  induction rows1 as [|row rows1 IH]; intros a; cbn.
  - now rewrite Nat.add_0_r.
  - rewrite IH. do 3 f_equal. lia.
Qed.

Lemma tone_rows_shift (frame : Z) (rows : list (list Q)) :
  forall a k,
    tone_rows sintable frame (a + k) rows =
    tone_rows sintable (frame + Z.of_nat k) a rows.
Proof.
  induction rows as [|row rows IH]; intros a k; cbn; [reflexivity|].
  f_equal.
  - unfold tone_row.
    replace (Z.of_nat (a + k) + frame)
      with (Z.of_nat a + (frame + Z.of_nat k)) by lia.
    reflexivity.
  - apply (IH (S a) k).
Qed.

(** [fill] on a buffer whose first [frames] rows have two columns. *)
Lemma fill_rows (frames frame : Z) (outdata : list (list Q)) :
  0 <= frames <= Z.of_nat (List.length outdata) ->
  Forall (fun row => (2 <= List.length row)%nat)
         (firstn (Z.to_nat frames) outdata) ->
  fill sintable frames frame outdata =
  (tone_rows sintable frame 0 (firstn (Z.to_nat frames) outdata) ++
   skipn (Z.to_nat frames) outdata, Ok tt).
Proof.
  intros Hframes Hwide. unfold fill.
  pose proof (fill_loop_rows frame (firstn (Z.to_nat frames) outdata) []
                (skipn (Z.to_nat frames) outdata) Hwide) as Hloop.
  cbn [List.length app] in Hloop.
  rewrite firstn_skipn in Hloop.
  rewrite length_firstn, Nat.min_l in Hloop by lia.
  exact Hloop.
Qed.

(** X19.  Successive callbacks continue the tone without a seam: the
    callback run on a buffer and then on the next leaves the counter and the
    two buffers as one callback run on the two buffers joined leaves
    them. *)
Theorem callback_continues (frame : Z) (b1 b2 : list (list Q)) :
  Forall (fun row => (2 <= List.length row)%nat) b1 ->
  Forall (fun row => (2 <= List.length row)%nat) b2 ->
  exists b1' b2',
    callback sintable (Z.of_nat (List.length b1)) (frame, b1) =
    ((frame + Z.of_nat (List.length b1), b1'), Ok tt) /\
    callback sintable (Z.of_nat (List.length b2))
      (frame + Z.of_nat (List.length b1), b2) =
    ((frame + Z.of_nat (List.length b1) + Z.of_nat (List.length b2), b2'),
     Ok tt) /\
    callback sintable (Z.of_nat (List.length b1) + Z.of_nat (List.length b2))
      (frame, b1 ++ b2) =
    ((frame + (Z.of_nat (List.length b1) + Z.of_nat (List.length b2)),
      b1' ++ b2'), Ok tt).
Proof.
  intros Hwide1 Hwide2.
  assert (Hwhole : forall (f : Z) (b : list (list Q)),
             Forall (fun row => (2 <= List.length row)%nat) b ->
             fill sintable (Z.of_nat (List.length b)) f b =
             (tone_rows sintable f 0 b, Ok tt)).
  { intros f b Hwide.
    rewrite fill_rows; rewrite ?Nat2Z.id, ?firstn_all, ?skipn_all;
      [now rewrite app_nil_r|lia|assumption]. }
  exists (tone_rows sintable frame 0 b1),
         (tone_rows sintable (frame + Z.of_nat (List.length b1)) 0 b2).
  unfold callback. cbn [fst snd].
  rewrite !Hwhole by assumption.
  split; [reflexivity|]. split; [reflexivity|].
  rewrite <- Nat2Z.inj_add, <- length_app.
  rewrite Hwhole by (apply Forall_app; split; assumption).
  rewrite tone_rows_app. cbn [plus].
  rewrite <- (tone_rows_shift frame b2 0 (List.length b1)).
  cbn [plus]. reflexivity.
Qed.

End ToneFacts.

Lemma callback_continues_witness :
  List.length index_table = 1024%nat /\
  exists b1' b2',
    callback index_table 1 (0, [[0; 0]%Q]) = ((1, b1'), Ok tt) /\
    callback index_table 2 (1, [[0; 0]; [0; 0]]%Q) = ((3, b2'), Ok tt) /\
    callback index_table 3 (0, [[0; 0]; [0; 0]; [0; 0]]%Q) =
    ((3, b1' ++ b2'), Ok tt).
Proof.
  assert (Hlen : List.length index_table = 1024%nat) by reflexivity.
  split; [exact Hlen|].
  destruct (callback_continues index_table Hlen 0 [[0; 0]%Q]
              [[0; 0]; [0; 0]]%Q) as (b1' & b2' & H1 & H2 & H12).
  - repeat constructor.
  - repeat constructor.
  - exists b1', b2'. split; [exact H1|]. split; [exact H2|exact H12].
Defined.

(** ** Facts on binary64 rounding *)

Lemma pow2_pos (e : Z) : (0 < pow2 e)%Q.
Proof. apply Qpower_0_lt. reflexivity. Qed.

Lemma pow2_of_nonpos (e : Z) :
  e <= 0 -> (pow2 e == / inject_Z (2 ^ (- e)))%Q.
Proof.
  intros He. unfold pow2.
  replace e with (- - e) at 1 by lia.
  rewrite Qpower_opp, Zpower_Qpower by lia. reflexivity.
Qed.

Lemma Zpow2_pos (n : Z) : 0 <= n -> 0 < 2 ^ n.
Proof. intros Hn. apply Z.pow_pos_nonneg; lia. Qed.

(** Dividing a whole number by a power of two whose exponent is not
    positive gives a whole number. *)
Lemma scale_integer (z e : Z) :
  e <= 0 -> (inject_Z z / pow2 e == inject_Z (z * 2 ^ (- e)))%Q.
Proof.
  intros He. rewrite pow2_of_nonpos by assumption.
  rewrite inject_Z_mult.
  pose proof (Zpow2_pos (- e) ltac:(lia)) as Hpos.
  assert (Hnz : ~ (inject_Z (2 ^ (- e)) == 0)%Q).
  { change 0%Q with (inject_Z 0). rewrite inject_Z_injective. lia. }
  field. exact Hnz.
Qed.

Lemma ilog2_lower (a : Q) : (0 < a)%Q -> (pow2 (ilog2 a) <= a)%Q.
Proof.
  intros Ha. unfold ilog2.
  set (k := Z.log2 (Qnum a) - Z.log2 (Z.pos (Qden a))).
  destruct (Qle_bool (pow2 k) a) eqn:Htest.
  - now apply Qle_bool_iff.
  - destruct a as [n d]. cbn [Qnum Qden] in k.
    assert (Hn : 0 < n) by (unfold Qlt in Ha; cbn in Ha; lia).
    pose proof (Z.log2_spec n Hn) as [Hn2 _].
    pose proof (Z.log2_spec (Z.pos d) ltac:(lia)) as [_ Hd2].
    pose proof (Z.log2_nonneg n) as Hln.
    pose proof (Z.log2_nonneg (Z.pos d)) as Hld.
    replace (k - 1) with (Z.log2 n - Z.succ (Z.log2 (Z.pos d)))
      by (unfold k; lia).
    unfold pow2. rewrite Qpower_minus by discriminate.
    change 2%Q with (inject_Z 2).
    rewrite <- !Zpower_Qpower by lia.
    apply Qle_shift_div_r.
    + change 0%Q with (inject_Z 0). rewrite <- Zlt_Qlt.
      apply Zpow2_pos. lia.
    + unfold Qle, Qmult, inject_Z. cbn [Qnum Qden].
      rewrite !Z.mul_1_r, Pos.mul_1_r.
      apply Z.mul_le_mono_nonneg; lia.
Qed.

Lemma ulp_exponent_small (z : Q) :
  (0 < z)%Q -> (z < inject_Z (2 ^ 53))%Q -> ulp_exponent z <= 0.
Proof.
  intros Hz Hbig. unfold ulp_exponent.
  assert (Habs : (Qabs z == z)%Q) by (apply Qabs_pos; lra).
  assert (Hpos : (0 < Qabs z)%Q) by (rewrite Habs; exact Hz).
  pose proof (ilog2_lower (Qabs z) Hpos) as Hlow.
  assert (Hlt : (pow2 (ilog2 (Qabs z)) < pow2 53)%Q).
  { apply (Qle_lt_trans _ (Qabs z)); [exact Hlow|].
    apply (Qle_lt_trans _ z); [rewrite Habs; apply Qle_refl|].
    unfold pow2. change 2%Q with (inject_Z 2).
    rewrite <- Zpower_Qpower by lia. exact Hbig. }
  apply Qpower_lt_compat_l_inv in Hlt; [lia|reflexivity].
Qed.

Lemma round_half_even_le (x : Q) (k : Z) :
  (x <= inject_Z k)%Q -> round_half_even x <= k.
Proof.
  intros Hx. unfold round_half_even.
  pose proof (Qfloor_le x) as Hfloor.
  assert (Hfk : Qfloor x <= k).
  { rewrite Zle_Qle. lra. }
  destruct (Z.eq_dec (Qfloor x) k) as [Heq|Hne].
  - assert (Hzero : (x - inject_Z (Qfloor x) ?= 1 # 2)%Q = Lt).
    { apply (proj1 (Qlt_alt _ _)). rewrite Heq in Hfloor |- *. lra. }
    rewrite Hzero. exact Hfk.
  - destruct (x - inject_Z (Qfloor x) ?= 1 # 2)%Q; [|lia|lia].
    destruct (Z.even (Qfloor x)); lia.
Qed.

Lemma round_half_even_nonneg (x : Q) : (0 <= x)%Q -> 0 <= round_half_even x.
Proof.
  intros Hx. unfold round_half_even.
  assert (Hf : 0 <= Qfloor x).
  { change 0 with (Qfloor 0). now apply Qfloor_resp_le. }
  destruct (x - inject_Z (Qfloor x) ?= 1 # 2)%Q; [|lia|lia].
  destruct (Z.even (Qfloor x)); lia.
Qed.

Lemma round_half_even_integer (x : Q) (k : Z) :
  (x == inject_Z k)%Q -> round_half_even x = k.
Proof.
  intros Hx. unfold round_half_even.
  rewrite (Qfloor_comp _ _ Hx), Qfloor_Z.
  assert (Hzero : (x - inject_Z k ?= 1 # 2)%Q = Lt).
  { apply (proj1 (Qlt_alt _ _)). rewrite Hx. lra. }
  now rewrite Hzero.
Qed.

Lemma round64_zero : round64 0 = 0%Q.
Proof. reflexivity. Qed.

Lemma round64_nonneg (q : Q) : (0 <= q)%Q -> (0 <= round64 q)%Q.
Proof.
  intros Hq. unfold round64.
  destruct (Qeq_bool q 0); [lra|].
  apply Qmult_le_0_compat.
  - change 0%Q with (inject_Z 0). rewrite <- Zle_Qle.
    apply round_half_even_nonneg.
    apply Qle_shift_div_l; [apply pow2_pos|lra].
  - apply Qlt_le_weak, pow2_pos.
Qed.

(** A positive value below a whole number that is a double rounds to that
    whole number at most. *)
Lemma round64_below (z : Q) (L : Z) :
  (0 < z)%Q -> (z < inject_Z L)%Q -> L <= 2 ^ 53 ->
  (round64 z <= inject_Z L)%Q.
Proof.
  intros Hz HzL HL. unfold round64.
  destruct (Qeq_bool z 0) eqn:Hzero.
  - lra.
  - assert (Hbig : (z < inject_Z (2 ^ 53))%Q).
    { apply (Qlt_le_trans _ (inject_Z L)); [exact HzL|].
      now rewrite <- Zle_Qle. }
    pose proof (ulp_exponent_small z Hz Hbig) as He.
    set (e := ulp_exponent z) in *.
    pose proof (pow2_pos e) as Hpow.
    assert (Hscaled : (z / pow2 e <= inject_Z (L * 2 ^ (- e)))%Q).
    { rewrite <- scale_integer by assumption.
      unfold Qdiv. apply Qmult_le_compat_r; [lra|].
      apply Qinv_le_0_compat. lra. }
    apply round_half_even_le in Hscaled.
    rewrite Zle_Qle in Hscaled.
    rewrite <- scale_integer in Hscaled by assumption.
    apply (Qmult_le_compat_r _ _ (pow2 e)) in Hscaled; [|lra].
    assert (Hback : (inject_Z L / pow2 e * pow2 e == inject_Z L)%Q)
      by (field; lra).
    rewrite Hback in Hscaled. exact Hscaled.
Qed.

(** A positive whole number below [2 ^ 53] is a double. *)
Lemma round64_integer (L : Z) :
  0 < L < 2 ^ 53 -> (round64 (inject_Z L) == inject_Z L)%Q.
Proof.
  intros [Hpos Hbig]. unfold round64.
  destruct (Qeq_bool (inject_Z L) 0) eqn:Hzero.
  - apply Qeq_bool_iff in Hzero. symmetry. exact Hzero.
  - assert (HzQ : (0 < inject_Z L)%Q).
    { change 0%Q with (inject_Z 0). now rewrite <- Zlt_Qlt. }
    assert (HbQ : (inject_Z L < inject_Z (2 ^ 53))%Q)
      by now rewrite <- Zlt_Qlt.
    pose proof (ulp_exponent_small _ HzQ HbQ) as He.
    set (e := ulp_exponent (inject_Z L)) in *.
    pose proof (pow2_pos e) as Hpow.
    rewrite (round_half_even_integer _ (L * 2 ^ (- e)))
      by (apply scale_integer; assumption).
    rewrite <- scale_integer by assumption.
    field. lra.
Qed.

Lemma Qle_bool_false (x y : Q) : Qle_bool x y = false <-> (y < x)%Q.
Proof.
  split.
  - intros Hb. apply Qnot_le_lt. intros Hle.
    apply Qle_bool_iff in Hle. congruence.
  - intros Hlt. destruct (Qle_bool x y) eqn:Hb; [|reflexivity].
    apply Qle_bool_iff in Hb. lra.
Qed.

Lemma ilog2_upper (a : Q) : (0 < a)%Q -> (a < pow2 (ilog2 a + 1))%Q.
Proof.
  intros Ha. unfold ilog2.
  set (k := Z.log2 (Qnum a) - Z.log2 (Z.pos (Qden a))).
  destruct (Qle_bool (pow2 k) a) eqn:Htest.
  - destruct a as [n d]. cbn [Qnum Qden] in k.
    assert (Hn : 0 < n) by (unfold Qlt in Ha; cbn in Ha; lia).
    pose proof (Z.log2_spec n Hn) as [_ Hn2].
    pose proof (Z.log2_spec (Z.pos d) ltac:(lia)) as [Hd2 _].
    pose proof (Z.log2_nonneg n) as Hln.
    pose proof (Z.log2_nonneg (Z.pos d)) as Hld.
    replace (k + 1) with (Z.succ (Z.log2 n) - Z.log2 (Z.pos d))
      by (unfold k; lia).
    unfold pow2. rewrite Qpower_minus by discriminate.
    change 2%Q with (inject_Z 2).
    rewrite <- !Zpower_Qpower by lia.
    apply Qlt_shift_div_l.
    + change 0%Q with (inject_Z 0). rewrite <- Zlt_Qlt.
      apply Zpow2_pos. lia.
    + unfold Qlt, Qmult, inject_Z. cbn [Qnum Qden].
      rewrite !Z.mul_1_r.
      pose proof (Zpow2_pos (Z.log2 (Z.pos d)) Hld).
      nia.
  - apply Qle_bool_false in Htest.
    now replace (k - 1 + 1) with k by lia.
Qed.

(** [ilog2] does not depend on the fraction that stands for the number. *)
Lemma ilog2_comp (a b : Q) : (0 < a)%Q -> (a == b)%Q -> ilog2 a = ilog2 b.
Proof.
  intros Ha Hab.
  assert (Hb : (0 < b)%Q) by (rewrite <- Hab; exact Ha).
  pose proof (ilog2_lower a Ha) as Hal. pose proof (ilog2_upper a Ha) as Hau.
  pose proof (ilog2_lower b Hb) as Hbl. pose proof (ilog2_upper b Hb) as Hbu.
  assert (H1 : (pow2 (ilog2 a) < pow2 (ilog2 b + 1))%Q) by lra.
  assert (H2 : (pow2 (ilog2 b) < pow2 (ilog2 a + 1))%Q) by lra.
  apply Qpower_lt_compat_l_inv in H1; [|reflexivity].
  apply Qpower_lt_compat_l_inv in H2; [|reflexivity].
  lia.
Qed.

Lemma round_half_even_comp (x y : Q) :
  (x == y)%Q -> round_half_even x = round_half_even y.
Proof.
  intros Hxy. unfold round_half_even.
  rewrite (Qfloor_comp _ _ Hxy).
  assert (Hcmp : (x - inject_Z (Qfloor y) ?= 1 # 2)%Q =
                 (y - inject_Z (Qfloor y) ?= 1 # 2)%Q).
  { apply Qcompare_comp; [rewrite Hxy|]; reflexivity. }
  now rewrite Hcmp.
Qed.

(** [round64] is a function on the rationals: equal numbers round to equal
    doubles. *)
Lemma round64_comp (x y : Q) : (x == y)%Q -> (round64 x == round64 y)%Q.
Proof.
  intros Hxy. unfold round64.
  destruct (Qeq_bool x 0) eqn:Hx0.
  - apply Qeq_bool_iff in Hx0.
    assert (Hy0 : Qeq_bool y 0 = true)
      by (apply Qeq_bool_iff; rewrite <- Hxy; exact Hx0).
    rewrite Hy0. reflexivity.
  - apply Qeq_bool_neq in Hx0.
    destruct (Qeq_bool y 0) eqn:Hy0.
    { apply Qeq_bool_iff in Hy0. rewrite Hxy in Hx0. contradiction. }
    assert (Habs : (Qabs x == Qabs y)%Q) by (rewrite Hxy; reflexivity).
    assert (Hpos : (0 < Qabs x)%Q).
    { apply Qabs_case; intros Hs; lra. }
    assert (He : ulp_exponent x = ulp_exponent y).
    { unfold ulp_exponent. now rewrite (ilog2_comp _ _ Hpos Habs). }
    rewrite He.
    rewrite (round_half_even_comp (x / pow2 (ulp_exponent y))
                                  (y / pow2 (ulp_exponent y)))
      by (rewrite Hxy; reflexivity).
    reflexivity.
Qed.

(** ** The remainder on doubles *)

Lemma py_int_bounds (x : Q) :
  ((0 <= x -> inject_Z (py_int x) <= x /\ x < inject_Z (py_int x) + 1) /\
   (x <= 0 -> inject_Z (py_int x) - 1 < x /\ x <= inject_Z (py_int x)))%Q.
Proof.
  destruct x as [n d]. unfold py_int. cbn [Qnum Qden].
  pose proof (Z.quot_rem' n (Z.pos d)) as Hdiv.
  split; intros Hsign.
  - assert (Hn : 0 <= n) by (unfold Qle in Hsign; cbn in Hsign; lia).
    pose proof (Z.rem_bound_pos n (Z.pos d) Hn ltac:(lia)) as Hrem.
    unfold Qle, Qlt, Qplus, inject_Z. cbn [Qnum Qden].
    split; nia.
  - assert (Hn : n <= 0) by (unfold Qle in Hsign; cbn in Hsign; lia).
    pose proof (Z.rem_bound_pos_neg n (Z.pos d) ltac:(lia) Hn) as Hrem.
    unfold Qle, Qlt, Qminus, Qplus, Qopp, inject_Z. cbn [Qnum Qden].
    split; nia.
Qed.

Lemma Qfloor_unique (x : Q) (f : Z) :
  (inject_Z f <= x)%Q -> (x < inject_Z f + 1)%Q -> Qfloor x = f.
Proof.
  intros Hlow Hhigh.
  pose proof (Qfloor_le x) as Hfl. pose proof (Qlt_floor x) as Hfh.
  rewrite inject_Z_plus in Hfh. change (inject_Z 1) with 1%Q in Hfh.
  assert (H1 : (inject_Z f < inject_Z (Qfloor x) + 1)%Q) by lra.
  assert (H2 : (inject_Z (Qfloor x) < inject_Z f + 1)%Q) by lra.
  change 1%Q with (inject_Z 1) in H1, H2.
  rewrite <- inject_Z_plus, <- Zlt_Qlt in H1, H2. lia.
Qed.

(** The C remainder by a positive [y] has the sign of [x], is smaller than
    [y] in magnitude, and is the remainder of the floored division, less [y]
    when it is negative. *)
Lemma fmod_positive (x y : Q) :
  (0 < y)%Q ->
  let m := Float64.fmod x y in
  let r := (x - y * inject_Z (Qfloor (x / y)))%Q in
  ((- y < m)%Q /\ (m < y)%Q) /\
  ((0 <= x)%Q -> (0 <= m)%Q) /\
  ((0 <= m)%Q -> (m == r)%Q) /\
  ((m < 0)%Q -> (m + y == r)%Q).
Proof.
  intros Hy. cbv zeta. unfold Float64.fmod.
  set (q := (x / y)%Q). set (t := py_int q).
  assert (Hx : (x == q * y)%Q) by (unfold q; field; lra).
  destruct (py_int_bounds q) as [Hpos Hneg]. fold t in Hpos, Hneg.
  assert (Hcases : ((0 <= q)%Q \/ (q <= 0)%Q)) by (destruct (Qlt_le_dec q 0); [right|left]; lra).
  assert (Hrange : ((inject_Z t - 1 < q)%Q /\ (q < inject_Z t + 1)%Q)).
  { destruct Hcases as [Hc|Hc]; [destruct (Hpos Hc)|destruct (Hneg Hc)];
      split; lra. }
  destruct Hrange as [Hlo Hhi].
  split; [split; rewrite Hx at 1; nra|].
  split.
  - intros Hx0.
    assert (Hq0 : (0 <= q)%Q).
    { unfold q. apply Qle_shift_div_l; [exact Hy|lra]. }
    destruct (Hpos Hq0) as [Ht _]. rewrite Hx at 1. nra.
  - split.
    + intros Hm.
      assert (Htq : (inject_Z t <= q)%Q) by (rewrite Hx in Hm at 1; nra).
      now rewrite (Qfloor_unique q t Htq Hhi).
    + intros Hm.
      assert (Htq : (q < inject_Z t)%Q) by (rewrite Hx in Hm at 1; nra).
      assert (Hpred : (inject_Z (t - 1) == inject_Z t - 1)%Q)
        by (unfold Qeq, Qminus, Qplus, Qopp, inject_Z; cbn; lia).
      assert (Hfloor : Qfloor q = t - 1)
        by (apply Qfloor_unique; rewrite Hpred; lra).
      rewrite Hfloor, Hpred. ring.
Qed.

(** [x % y] for a double [y] that is a whole number [L] with
    [0 < L <= 2 ^ 53]: the value lies in [[0, L]], is [x] itself when [x]
    lies in [[0, L)], and is the exact remainder of the floored division,
    rounded once when the C remainder is negative. *)
Lemma rem_positive (x y : Q) (L : Z) :
  0 < L <= 2 ^ 53 ->
  (y == inject_Z L)%Q ->
  exists q : Q,
    Float64.rem x y = Ok q /\
    (0 <= q)%Q /\ (q <= y)%Q /\
    ((0 <= x)%Q -> (x < y)%Q -> (q == x)%Q) /\
    ((q == x - y * inject_Z (Qfloor (x / y)))%Q \/
     (q == round64 (x - y * inject_Z (Qfloor (x / y))))%Q).
Proof.
  intros [Hpos Hbig] HyL.
  assert (Hy : (0 < y)%Q).
  { rewrite HyL. change 0%Q with (inject_Z 0). now rewrite <- Zlt_Qlt. }
  destruct (fmod_positive x y Hy) as ([Hlo Hhi] & Hsign & Hfloor & Hwrap).
  unfold Float64.rem.
  destruct (Qeq_bool y 0) eqn:Hzero.
  { apply Qeq_bool_iff in Hzero. lra. }
  set (m := Float64.fmod x y) in *.
  assert (Hsame : forall x0 : Q, (0 <= x0)%Q -> (x0 < y)%Q ->
                  (Float64.fmod x0 y == x0)%Q).
  { intros x0 H0 H1. unfold Float64.fmod.
    assert (Hq : (0 <= x0 / y)%Q)
      by (apply Qle_shift_div_l; [exact Hy|lra]).
    assert (Hq1 : (x0 / y < 1)%Q)
      by (apply Qlt_shift_div_r; [exact Hy|lra]).
    destruct (py_int_bounds (x0 / y)) as [Hp _].
    destruct (Hp Hq) as [Ht1 Ht2].
    assert (Ht : py_int (x0 / y) = 0).
    { assert (A : (inject_Z (py_int (x0 / y)) < inject_Z 1)%Q)
        by (change (inject_Z 1) with 1%Q; lra).
      assert (B : (inject_Z (-1) < inject_Z (py_int (x0 / y)))%Q)
        by (change (inject_Z (-1)) with (-1)%Q; lra).
      rewrite <- Zlt_Qlt in A, B. lia. }
    rewrite Ht. change (inject_Z 0) with 0%Q. ring. }
  destruct (Qeq_bool m 0) eqn:Hm0.
  - apply Qeq_bool_iff in Hm0.
    exists 0%Q. split; [reflexivity|]. split; [lra|]. split; [lra|].
    split.
    + intros H0 H1. rewrite <- (Hsame x H0 H1). fold m. now symmetry.
    + left. rewrite <- Hfloor by lra. now symmetry.
  - apply Qeq_bool_neq in Hm0.
    assert (Hynn : Qle_bool 0 y = true) by (apply Qle_bool_iff; lra).
    rewrite Hynn. cbn [negb xorb].
    destruct (Qle_bool 0 m) eqn:Hmsign; cbn [negb].
    + apply Qle_bool_iff in Hmsign.
      exists m. split; [reflexivity|]. split; [exact Hmsign|].
      split; [lra|]. split.
      * intros H0 H1. unfold m. now apply Hsame.
      * left. now apply Hfloor.
    + apply Qle_bool_false in Hmsign.
      exists (Float64.add m y). split; [reflexivity|].
      unfold Float64.add.
      split; [apply round64_nonneg; lra|].
      split.
      * rewrite HyL at 2. apply round64_below; [lra| |exact Hbig].
        rewrite <- HyL. lra.
      * split; [|right; apply round64_comp; now apply Hwrap].
        intros H0 H1. specialize (Hsign H0). lra.
Qed.

Lemma of_int_length (L : Z) :
  0 < L < 2 ^ 53 -> (Float64.of_int L == inject_Z L)%Q.
Proof. apply round64_integer. Qed.

(** ** [ReadHead.seek] and [ReadHead.__init__] on doubles *)

(** C5, as stated, fails on doubles: on the four-sample [ramp], [seek] of
    the double [-2 ** -70] stores and returns 4.0, the clip length itself,
    because [fmod] leaves [-2 ** -70] and the sum [-2 ** -70 + 4] rounds to
    4.0; the position is not in [[0, 4)]. *)
Lemma seek_tiny_negative_reaches_length :
  let h := ramp_head 0 1 in
  let h' := fst (Float64.seek tiny_negative h) in
  snd (Float64.seek tiny_negative h) = Ok (ReadHead.position h') /\
  (ReadHead.position h' == inject_Z (Clip.length (ReadHead.clip h)))%Q /\
  ~ (ReadHead.position h' < inject_Z (Clip.length (ReadHead.clip h)))%Q.
Proof.
  cbv zeta. split; [reflexivity|].
  split; [vm_compute; reflexivity|vm_compute; discriminate].
Qed.

(** C5, amended.  On a head whose clip has a length [L] with
    [0 < L < 2 ** 53], [seek] of a finite double [p] stores in [position]
    the double [p % L], returns it and changes no other attribute.  The
    value lies in [[0, L]]: it is the exact [p mod L], or that number
    rounded to a double when the C remainder of [p] is negative, and so it
    reaches [L] itself for a negative [p] close enough to zero. *)
Theorem seek_normalizes (h : ReadHead.t) (p : Q) :
  0 < Clip.length (ReadHead.clip h) < 2 ^ 53 ->
  let L := inject_Z (Clip.length (ReadHead.clip h)) in
  let exact := (p - L * inject_Z (Qfloor (p / L)))%Q in
  exists q : Q,
    Float64.seek p h = (ReadHead.set_position q h, Ok q) /\
    (0 <= q)%Q /\
    (q <= L)%Q /\
    ((q == exact)%Q \/ (q == round64 exact)%Q) /\
    let h' := fst (Float64.seek p h) in
    ReadHead.position h' = q /\
    ReadHead.frame h' = ReadHead.frame h /\
    ReadHead.clip h' = ReadHead.clip h /\
    ReadHead.channel h' = ReadHead.channel h /\
    ReadHead.speed h' = ReadHead.speed h /\
    ReadHead.active h' = ReadHead.active h.
Proof.
  intros Hlen. cbv zeta.
  pose proof (of_int_length _ Hlen) as Hy.
  destruct (rem_positive p (Float64.of_int (Clip.length (ReadHead.clip h)))
              (Clip.length (ReadHead.clip h)) ltac:(lia) Hy)
    as (q & Hrem & Hlow & Hhigh & _ & Hexact).
  exists q.
  assert (Hseek : Float64.seek p h = (ReadHead.set_position q h, Ok q)).
  { unfold Float64.seek, bind, get, lift, modify, ret.
    rewrite Hrem. reflexivity. }
  split; [exact Hseek|]. split; [exact Hlow|].
  split; [rewrite <- Hy; exact Hhigh|].
  split.
  - assert (Hsame :
      (p - Float64.of_int (Clip.length (ReadHead.clip h)) *
           inject_Z (Qfloor
                       (p / Float64.of_int (Clip.length (ReadHead.clip h))))
       == p - inject_Z (Clip.length (ReadHead.clip h)) *
              inject_Z (Qfloor
                          (p / inject_Z (Clip.length (ReadHead.clip h)))))%Q).
    { rewrite (Qfloor_comp
                 (p / Float64.of_int (Clip.length (ReadHead.clip h)))
                 (p / inject_Z (Clip.length (ReadHead.clip h))))
        by (rewrite Hy; reflexivity).
      rewrite Hy. reflexivity. }
    destruct Hexact as [He|He]; [left|right].
    + rewrite He. exact Hsame.
    + rewrite He. apply round64_comp. exact Hsame.
  - rewrite Hseek. cbn. repeat split; reflexivity.
Qed.

Lemma seek_normalizes_witness :
  0 < Clip.length (ReadHead.clip (ramp_head 0 1)) < 2 ^ 53 /\
  exists q : Q,
    Float64.seek tiny_negative (ramp_head 0 1) =
    (ReadHead.set_position q (ramp_head 0 1), Ok q) /\
    (0 <= q)%Q /\ (q <= 4)%Q.
Proof.
  assert (Hlen : 0 < Clip.length (ReadHead.clip (ramp_head 0 1)) < 2 ^ 53)
    by (cbn; lia).
  split; [exact Hlen|].
  destruct (seek_normalizes (ramp_head 0 1) tiny_negative Hlen)
    as (q & Hseek & Hlow & Hhigh & _).
  exists q. split; [exact Hseek|]. split; [exact Hlow|exact Hhigh].
Defined.

(** X4.  [seek] of a double that already lies in [[0, L)], [L] the clip
    length as a double, stores and returns that very position. *)
Theorem seek_fixes_range (h : ReadHead.t) (p : Q) :
  (0 <= p)%Q ->
  (p < Float64.of_int (Clip.length (ReadHead.clip h)))%Q ->
  exists q : Q,
    Float64.seek p h = (ReadHead.set_position q h, Ok q) /\ (q == p)%Q.
Proof.
  intros Hlow Hhigh.
  set (y := Float64.of_int (Clip.length (ReadHead.clip h))) in *.
  assert (Hy : (0 < y)%Q) by lra.
  destruct (fmod_positive p y Hy) as (_ & Hsign & _ & _).
  assert (Hm : (Float64.fmod p y == p)%Q).
  { unfold Float64.fmod.
    assert (Hq : (0 <= p / y)%Q)
      by (apply Qle_shift_div_l; [exact Hy|lra]).
    assert (Hq1 : (p / y < 1)%Q)
      by (apply Qlt_shift_div_r; [exact Hy|lra]).
    destruct (py_int_bounds (p / y)) as [Hp _].
    destruct (Hp Hq) as [Ht1 Ht2].
    assert (Ht : py_int (p / y) = 0).
    { assert (A : (inject_Z (py_int (p / y)) < inject_Z 1)%Q)
        by (change (inject_Z 1) with 1%Q; lra).
      assert (B : (inject_Z (-1) < inject_Z (py_int (p / y)))%Q)
        by (change (inject_Z (-1)) with (-1)%Q; lra).
      rewrite <- Zlt_Qlt in A, B. lia. }
    rewrite Ht. change (inject_Z 0) with 0%Q. ring. }
  unfold Float64.seek, bind, get, lift, modify, ret, Float64.rem. fold y.
  destruct (Qeq_bool y 0) eqn:Hzero.
  { apply Qeq_bool_iff in Hzero. lra. }
  cbv zeta.
  destruct (Qeq_bool (Float64.fmod p y) 0) eqn:Hm0.
  - apply Qeq_bool_iff in Hm0.
    exists 0%Q. split; [reflexivity|]. rewrite <- Hm, Hm0. reflexivity.
  - assert (Hynn : Qle_bool 0 y = true) by (apply Qle_bool_iff; lra).
    assert (Hmnn : Qle_bool 0 (Float64.fmod p y) = true)
      by (apply Qle_bool_iff; rewrite Hm; exact Hlow).
    rewrite Hynn, Hmnn. cbn [negb xorb].
    exists (Float64.fmod p y). split; [reflexivity|exact Hm].
Qed.

Lemma seek_fixes_range_witness :
  (0 <= double_0_3)%Q /\
  (double_0_3 < Float64.of_int (Clip.length (ReadHead.clip (ramp_head 0 1))))%Q /\
  exists q : Q,
    Float64.seek double_0_3 (ramp_head 0 1) =
    (ReadHead.set_position q (ramp_head 0 1), Ok q) /\ (q == double_0_3)%Q.
Proof.
  assert (Hlow : (0 <= double_0_3)%Q) by (vm_compute; discriminate).
  assert (Hhigh : (double_0_3 <
                   Float64.of_int
                     (Clip.length (ReadHead.clip (ramp_head 0 1))))%Q)
    by (vm_compute; reflexivity).
  split; [exact Hlow|]. split; [exact Hhigh|].
  exact (seek_fixes_range (ramp_head 0 1) double_0_3 Hlow Hhigh).
Defined.

(** X1.  On a shaped clip with at least one channel and a length [L] with
    [0 < L < 2 ** 53], [ReadHead(clip, channel, position, speed, active)]
    with a finite double [position] builds a head that keeps the head
    invariant: [frame] is 0, [channel] is the argument reduced modulo the
    channel count, so a negative argument counts from the last channel,
    [position] lies in [[0, L]], and [clip], [speed] and [active] are the
    arguments. *)
Theorem init_builds_bound_head (clip : Clip.t) (channel : Z)
    (position speed : Q) (active : bool) :
  Clip.shaped clip ->
  0 < Clip.channels clip ->
  0 < Clip.length clip < 2 ^ 53 ->
  exists h,
    Float64.init clip channel position speed active = Ok h /\
    ReadHead.bound h /\
    ReadHead.frame h = 0 /\
    ReadHead.clip h = clip /\
    ReadHead.channel h = channel mod Clip.channels clip /\
    (0 <= ReadHead.position h)%Q /\
    (ReadHead.position h <= inject_Z (Clip.length clip))%Q /\
    ReadHead.speed h = speed /\
    ReadHead.active h = active.
Proof.
  intros Hshaped Hch Hlen.
  unfold Float64.init, pymod_int.
  destruct (Z.eqb_spec (Clip.channels clip) 0) as [Hzero|_]; [lia|].
  pose proof (of_int_length _ Hlen) as Hy.
  destruct (rem_positive position (Float64.of_int (Clip.length clip))
              (Clip.length clip) ltac:(lia) Hy)
    as (q & Hrem & Hlow & Hhigh & _).
  rewrite Hrem.
  pose proof (Z.mod_pos_bound channel (Clip.channels clip) Hch) as Hmod.
  eexists. split; [reflexivity|].
  split; [split; [exact Hshaped|exact Hmod]|].
  cbn [ReadHead.frame ReadHead.clip ReadHead.channel ReadHead.position
       ReadHead.speed ReadHead.active].
  repeat (split; [first [reflexivity|assumption]|]).
  split; [rewrite <- Hy; exact Hhigh|]. split; reflexivity.
Qed.

Lemma init_builds_bound_head_witness :
  Clip.shaped stereo /\
  exists h,
    Float64.init stereo (-1) tiny_negative 1 true = Ok h /\
    ReadHead.bound h /\
    ReadHead.channel h = 1 /\
    (ReadHead.position h <= 2)%Q.
Proof.
  assert (Hshaped : Clip.shaped stereo).
  { split; [reflexivity|]. repeat constructor. }
  split; [exact Hshaped|].
  destruct (init_builds_bound_head stereo (-1) tiny_negative 1 true Hshaped)
    as (h & Hinit & Hbound & _ & _ & Hchannel & _ & Hhigh & _).
  - reflexivity.
  - cbn. lia.
  - exists h. split; [exact Hinit|]. split; [exact Hbound|].
    split; [rewrite Hchannel; reflexivity|exact Hhigh].
Defined.

(** ** [ReadHead.read] on doubles *)

Lemma collect64_length (row : list Q) (step : Q) (n : nat) :
  forall p vs fault,
    Float64.collect row p step n = (vs, fault) ->
    (List.length vs <= n)%nat /\ (fault = None -> List.length vs = n).
Proof.
  induction n as [|n IH]; intros p vs fault; cbn.
  - intros [= <- <-]. split; auto.
  - destruct (sample_at row p) as [v|e].
    + destruct (Float64.collect row (Float64.add p step) step n)
        as [vs' fault'] eqn:Hrest.
      intros [= <- <-]. destruct (IH _ _ _ Hrest) as [Hle Hall].
      cbn. split; [lia|]. intros Hnone. now rewrite Hall.
    + intros [= <- <-]. cbn. split; [lia|discriminate].
Qed.

Lemma collect64_nth (row : list Q) (step : Q) (n : nat) :
  forall p vs,
    Float64.collect row p step n = (vs, None) ->
    forall i, (i < n)%nat ->
      sample_at row (Float64.position_after p step i) = Ok (nth i vs 0%Q).
Proof.
  induction n as [|n IH]; intros p vs Hrun i Hi; [lia|].
  cbn in Hrun.
  destruct (sample_at row p) as [v|e] eqn:Hhere; [|discriminate].
  destruct (Float64.collect row (Float64.add p step) step n)
    as [vs' fault] eqn:Hrest.
  injection Hrun as <- ->.
  destruct i as [|i]; [exact Hhere|].
  cbn. apply (IH _ _ Hrest). lia.
Qed.

Lemma collect64_prefix (row : list Q) (step : Q) (k : nat) :
  forall p n,
    (forall i, (i < k)%nat ->
       exists v, sample_at row (Float64.position_after p step i) = Ok v) ->
    exists vs,
      List.length vs = k /\
      Float64.collect row p step (k + n) =
      (vs ++ fst (Float64.collect row (Float64.position_after p step k)
                    step n),
       snd (Float64.collect row (Float64.position_after p step k) step n)).
Proof.
  induction k as [|k IH]; intros p n Hok.
  - exists []. split; [reflexivity|].
    cbn [plus Float64.position_after app].
    now destruct (Float64.collect row p step n).
  - destruct (Hok 0%nat) as [v Hv]; [lia|]. cbn in Hv.
    destruct (IH (Float64.add p step) n) as (vs & Hlen & Hrun).
    { intros i Hi. apply (Hok (S i)). lia. }
    exists (v :: vs). split; [cbn; now rewrite Hlen|].
    cbn [plus Float64.collect Float64.position_after]. rewrite Hv, Hrun.
    reflexivity.
Qed.

Lemma advanced64_zero (step : Q) (h : ReadHead.t) :
  Float64.advanced step 0 h = h.
Proof.
  destruct h.
  unfold Float64.advanced, ReadHead.set_frame, ReadHead.set_position.
  cbn. now rewrite Z.add_0_r.
Qed.

Lemma read_loop64_inactive (step : Q) (data : list Q) (indices : list nat) :
  forall (output : list Q) (h : ReadHead.t),
    ReadHead.active h = false ->
    Float64.read_loop step data indices output h =
    (ReadHead.set_frame
       (ReadHead.frame h + Z.of_nat (List.length indices)) h, Ok output).
Proof.
  induction indices as [|i rest IH]; intros output h Hoff.
  - cbn. unfold ret. destruct h; unfold ReadHead.set_frame; cbn.
    now rewrite Z.add_0_r.
  - cbn [Float64.read_loop]. unfold bind at 1.
    unfold Float64.read_sample, bind, get, ret, modify. rewrite Hoff.
    rewrite IH by assumption.
    unfold ReadHead.set_frame. cbn. do 2 f_equal. lia.
Qed.

(** The loop of an active head on doubles, as the samples it collects. *)
Lemma read_loop64_active (step : Q) (row : list Q) (n : nat) :
  forall (a : nat) (buf : list Q) (h : ReadHead.t),
    ReadHead.active h = true ->
    (a + n <= List.length buf)%nat ->
    Float64.read_loop step row (seq a n) buf h =
    (Float64.advanced step
       (List.length (fst (Float64.collect row (ReadHead.position h) step n)))
       h,
     match snd (Float64.collect row (ReadHead.position h) step n) with
     | None =>
         Ok (splice buf a
               (fst (Float64.collect row (ReadHead.position h) step n)))
     | Some e => Raise e
     end).
Proof.
  induction n as [|n IH]; intros a buf h Hact Hfit.
  - cbn. unfold ret. now rewrite advanced64_zero, splice_nil.
  - cbn [seq Float64.read_loop Float64.collect].
    unfold bind at 1. unfold Float64.read_sample at 1.
    unfold bind, get, lift, modify, ret. rewrite Hact.
    fold (sample_at row (ReadHead.position h)).
    destruct (sample_at row (ReadHead.position h)) as [v|e].
    + cbn -[Float64.collect Float64.advanced splice Float64.add].
      match goal with
      | |- Float64.read_loop _ _ _ ?b ?x = _ =>
          rewrite (IH (S a) b x)
      end.
      * cbn [ReadHead.position ReadHead.set_frame ReadHead.set_position].
        destruct (Float64.collect row
                    (Float64.add (ReadHead.position h) step) step n)
          as [vs fault].
        cbn [fst snd List.length]. f_equal.
        -- unfold Float64.advanced, ReadHead.set_frame,
             ReadHead.set_position.
           cbn -[Float64.add]. f_equal. lia.
        -- destruct fault; [reflexivity|].
           f_equal. apply splice_numpy_store. lia.
      * exact Hact.
      * rewrite numpy_store_length. lia.
    + cbn. now rewrite advanced64_zero.
Qed.

(** What a call of [read] on doubles has passed when it reaches its loop,
    and the loop it then runs. *)
Lemma read64_enters_loop (m : Mixer.t) (h : ReadHead.t) (row : list Q) :
  Qeq_bool (Float64.of_int (Mixer.rate m)) 0 = false ->
  0 <= Mixer.size m ->
  Clip.get_channel (ReadHead.clip h) (ReadHead.channel h) = Ok row ->
  Float64.read m h =
  Float64.read_loop (Float64.step_of m h) row
    (seq 0 (Z.to_nat (Mixer.size m)))
    (repeat 0%Q (Z.to_nat (Mixer.size m))) h.
Proof.
  intros Hrate Hsize Hrow.
  unfold Float64.read, bind, lift, get, numpy_zeros, Float64.truediv.
  destruct (Z.ltb_spec (Mixer.size m) 0) as [Hneg|_]; [lia|].
  rewrite Hrate, Hrow. reflexivity.
Qed.

Lemma read64_ok_preliminaries (m : Mixer.t) (h h' : ReadHead.t)
    (output : list Q) :
  Float64.read m h = (h', Ok output) ->
  Qeq_bool (Float64.of_int (Mixer.rate m)) 0 = false /\
  0 <= Mixer.size m /\
  exists row,
    Clip.get_channel (ReadHead.clip h) (ReadHead.channel h) = Ok row.
Proof.
  unfold Float64.read, bind, lift, get, numpy_zeros, Float64.truediv.
  destruct (Z.ltb_spec (Mixer.size m) 0) as [Hneg|Hsize]; [discriminate|].
  destruct (Qeq_bool (Float64.of_int (Mixer.rate m)) 0) eqn:Hzero;
    [discriminate|].
  destruct (Clip.get_channel (ReadHead.clip h) (ReadHead.channel h))
    as [row|e]; [|discriminate].
  intros _. split; [reflexivity|]. split; [assumption|now exists row].
Qed.

Lemma read64_active (m : Mixer.t) (h : ReadHead.t) (row : list Q) :
  ReadHead.active h = true ->
  Qeq_bool (Float64.of_int (Mixer.rate m)) 0 = false ->
  0 <= Mixer.size m ->
  Clip.get_channel (ReadHead.clip h) (ReadHead.channel h) = Ok row ->
  Float64.read m h =
  (Float64.advanced (Float64.step_of m h)
     (List.length
        (fst (Float64.collect row (ReadHead.position h)
                (Float64.step_of m h) (Z.to_nat (Mixer.size m))))) h,
   match snd (Float64.collect row (ReadHead.position h)
                (Float64.step_of m h) (Z.to_nat (Mixer.size m))) with
   | None =>
       Ok (fst (Float64.collect row (ReadHead.position h)
                  (Float64.step_of m h) (Z.to_nat (Mixer.size m))))
   | Some e => Raise e
   end).
Proof.
  intros Hact Hrate Hsize Hrow.
  rewrite (read64_enters_loop m h row Hrate Hsize Hrow).
  rewrite read_loop64_active; [|assumption|rewrite repeat_length; lia].
  destruct (Float64.collect row (ReadHead.position h) (Float64.step_of m h)
              (Z.to_nat (Mixer.size m))) as [vs fault] eqn:Hrun.
  cbn [fst snd]. destruct fault; [reflexivity|].
  destruct (collect64_length _ _ _ _ _ _ Hrun) as [_ Hall].
  rewrite splice_whole; [reflexivity|].
  rewrite repeat_length. now apply Hall.
Qed.

Lemma of_int_nonzero (n : Z) :
  0 < n < 2 ^ 53 -> Qeq_bool (Float64.of_int n) 0 = false.
Proof.
  intros Hn. destruct (Qeq_bool (Float64.of_int n) 0) eqn:Hzero;
    [|reflexivity].
  apply Qeq_bool_iff in Hzero.
  rewrite (of_int_length n Hn) in Hzero.
  change 0%Q with (inject_Z 0) in Hzero.
  rewrite inject_Z_injective in Hzero. lia.
Qed.

(** X5.  What a call of [read] that returns has done to the head: [frame]
    has advanced by [mixer.size]; an active head stands at the double that
    [mixer.size] additions of the step reach from its old position, each
    rounded and none wrapped; an inactive head has kept its position. *)
Theorem read_returns_rounded (m : Mixer.t) (h h' : ReadHead.t)
    (output : list Q) :
  Float64.read m h = (h', Ok output) ->
  ReadHead.frame h' = ReadHead.frame h + Mixer.size m /\
  ReadHead.position h' =
  (if ReadHead.active h
   then Float64.position_after (ReadHead.position h) (Float64.step_of m h)
          (Z.to_nat (Mixer.size m))
   else ReadHead.position h).
Proof.
  intros Hread.
  destruct (read64_ok_preliminaries m h h' output Hread)
    as (Hrate & Hsize & row & Hrow).
  destruct (ReadHead.active h) eqn:Hact.
  - rewrite (read64_active m h row Hact Hrate Hsize Hrow) in Hread.
    destruct (Float64.collect row (ReadHead.position h)
                (Float64.step_of m h) (Z.to_nat (Mixer.size m)))
      as [vs fault] eqn:Hrun.
    cbn [fst snd] in Hread. destruct fault as [e|]; [discriminate|].
    injection Hread as <- _.
    destruct (collect64_length _ _ _ _ _ _ Hrun) as [_ Hall].
    rewrite (Hall eq_refl). cbn. split; [lia|reflexivity].
  - rewrite (read64_enters_loop m h row Hrate Hsize Hrow) in Hread.
    rewrite read_loop64_inactive in Hread by assumption.
    injection Hread as <- _. rewrite length_seq. cbn. split; [lia|reflexivity].
Qed.

Lemma read_returns_rounded_witness :
  let m := Mixer.mk 4 11 in
  let h := ReadHead.mk 0 ramp8 0 0 double_0_1 true in
  let h' := fst (Float64.read m h) in
  Float64.read m h = (h', Ok (repeat 0%Q 11)) /\
  ReadHead.frame h' = 11 /\
  ReadHead.position h' = Float64.position_after 0 (Float64.step_of m h) 11 /\
  (ReadHead.position h' < 11 # 10)%Q.
Proof.
  cbv zeta.
  set (m := Mixer.mk 4 11).
  set (h := ReadHead.mk 0 ramp8 0 0 double_0_1 true).
  assert (Hread : Float64.read m h =
                  (fst (Float64.read m h), Ok (repeat 0%Q 11)))
    by (vm_compute; reflexivity).
  destruct (read_returns_rounded m h (fst (Float64.read m h))
              (repeat 0%Q 11) Hread) as [Hframe Hpos].
  split; [exact Hread|]. split; [exact Hframe|]. split; [exact Hpos|].
  vm_compute. reflexivity.
Defined.

(** X9.  The buffer a returning [read] of an active head hands back has
    [mixer.size] entries, and entry [i] is the sample of the head's channel
    row at [int] of the double the position has reached after [i] additions
    of the step. *)
Theorem read_active_samples (m : Mixer.t) (h h' : ReadHead.t)
    (row output : list Q) :
  ReadHead.active h = true ->
  Clip.get_channel (ReadHead.clip h) (ReadHead.channel h) = Ok row ->
  Float64.read m h = (h', Ok output) ->
  List.length output = Z.to_nat (Mixer.size m) /\
  forall i : nat,
    (i < Z.to_nat (Mixer.size m))%nat ->
    sample_at row
      (Float64.position_after (ReadHead.position h) (Float64.step_of m h) i) =
    Ok (nth i output 0%Q).
Proof.
  intros Hact Hrow Hread.
  destruct (read64_ok_preliminaries m h h' output Hread)
    as (Hrate & Hsize & _).
  rewrite (read64_active m h row Hact Hrate Hsize Hrow) in Hread.
  destruct (Float64.collect row (ReadHead.position h) (Float64.step_of m h)
              (Z.to_nat (Mixer.size m))) as [vs fault] eqn:Hrun.
  cbn [fst snd] in Hread. destruct fault as [e|]; [discriminate|].
  injection Hread as _ <-.
  split.
  - destruct (collect64_length _ _ _ _ _ _ Hrun) as [_ Hall]. now apply Hall.
  - apply (collect64_nth _ _ _ _ _ Hrun).
Qed.

Lemma read_active_samples_witness :
  let m := Mixer.mk 4 11 in
  let h := ReadHead.mk 0 ramp8 0 0 double_0_1 true in
  ReadHead.active h = true /\
  Float64.read m h = (fst (Float64.read m h), Ok (repeat 0%Q 11)) /\
  sample_at [0; 1; 2; 3; 4; 5; 6; 7]%Q
    (Float64.position_after 0 (Float64.step_of m h) 10) =
  Ok (nth 10 (repeat 0%Q 11) 0%Q).
Proof.
  cbv zeta.
  set (m := Mixer.mk 4 11).
  set (h := ReadHead.mk 0 ramp8 0 0 double_0_1 true).
  assert (Hread : Float64.read m h =
                  (fst (Float64.read m h), Ok (repeat 0%Q 11)))
    by (vm_compute; reflexivity).
  split; [reflexivity|]. split; [exact Hread|].
  apply (proj2 (read_active_samples m h (fst (Float64.read m h))
                  [0; 1; 2; 3; 4; 5; 6; 7]%Q (repeat 0%Q 11)
                  eq_refl eq_refl Hread) 10%nat).
  cbn. lia.
Defined.

(** X10.  An active head that keeps the head invariant, read by a mixer
    with a rate in [(0, 2 ** 53)] and a size [n >= 0], returns when every
    double its position visits truncates to an index of [[-L, L)], [L] the
    clip length: it then has added [n] to [frame] and stands [n] additions
    further. *)
Theorem read_active_succeeds (m : Mixer.t) (h : ReadHead.t) :
  ReadHead.active h = true ->
  ReadHead.bound h ->
  0 < Mixer.rate m < 2 ^ 53 ->
  0 <= Mixer.size m ->
  (forall i : nat,
      (i < Z.to_nat (Mixer.size m))%nat ->
      - Clip.length (ReadHead.clip h) <=
      py_int (Float64.position_after (ReadHead.position h)
                (Float64.step_of m h) i) <
      Clip.length (ReadHead.clip h)) ->
  exists h' output,
    Float64.read m h = (h', Ok output) /\
    ReadHead.frame h' = ReadHead.frame h + Mixer.size m /\
    ReadHead.position h' =
    Float64.position_after (ReadHead.position h) (Float64.step_of m h)
      (Z.to_nat (Mixer.size m)).
Proof.
  intros Hact Hbound Hrate Hsize Hin.
  destruct (bound_head_row_length h Hbound) as (row & Hrow & Hlen).
  rewrite (read64_active m h row Hact (of_int_nonzero _ Hrate) Hsize Hrow).
  destruct (collect64_prefix row (Float64.step_of m h)
              (Z.to_nat (Mixer.size m)) (ReadHead.position h) 0)
    as (vs & Hvs & Hrun).
  { intros i Hi. apply sample_at_in_range. rewrite Hlen. now apply Hin. }
  rewrite Nat.add_0_r in Hrun. rewrite Hrun. cbn [Float64.collect fst snd].
  rewrite app_nil_r, Hvs.
  eexists. eexists. split; [reflexivity|].
  cbn. split; [lia|reflexivity].
Qed.

Lemma read_active_succeeds_witness :
  let m := Mixer.mk 3 7 in
  let h := ReadHead.mk 0 ramp8 0 0 1 true in
  ReadHead.active h = true /\
  ReadHead.bound h /\
  exists h' output,
    Float64.read m h = (h', Ok output) /\
    ReadHead.frame h' = 7 /\
    (ReadHead.position h' < 28 # 3)%Q.
Proof.
  cbv zeta.
  set (m := Mixer.mk 3 7).
  set (h := ReadHead.mk 0 ramp8 0 0 1 true).
  assert (Hbound : ReadHead.bound h).
  { repeat split; cbn; try lia. repeat constructor. }
  split; [reflexivity|]. split; [exact Hbound|].
  destruct (read_active_succeeds m h eq_refl Hbound)
    as (h' & output & Hread & Hframe & Hpos).
  - cbn. lia.
  - cbn. lia.
  - intros i Hi. cbn in Hi.
    destruct i as [|[|[|[|[|[|[|i]]]]]]];
      [vm_compute; split; [discriminate|reflexivity]..|lia].
  - exists h', output. split; [exact Hread|]. split; [exact Hframe|].
    rewrite Hpos. vm_compute. reflexivity.
Defined.

(** X11.  When the double an active head reaches after [k] additions of
    the step is the first to truncate to an index outside [[-L, L)], [read]
    raises [IndexError] and leaves the head mid-buffer: [frame] has advanced
    by [k] only and [position] is the offending double. *)
Theorem read_active_faults (m : Mixer.t) (h : ReadHead.t) (k : nat) :
  ReadHead.active h = true ->
  ReadHead.bound h ->
  0 < Mixer.rate m < 2 ^ 53 ->
  (k < Z.to_nat (Mixer.size m))%nat ->
  (forall i : nat,
      (i < k)%nat ->
      - Clip.length (ReadHead.clip h) <=
      py_int (Float64.position_after (ReadHead.position h)
                (Float64.step_of m h) i) <
      Clip.length (ReadHead.clip h)) ->
  ~ (- Clip.length (ReadHead.clip h) <=
     py_int (Float64.position_after (ReadHead.position h)
               (Float64.step_of m h) k) <
     Clip.length (ReadHead.clip h)) ->
  exists h',
    Float64.read m h = (h', Raise IndexError) /\
    ReadHead.frame h' = ReadHead.frame h + Z.of_nat k /\
    ReadHead.position h' =
    Float64.position_after (ReadHead.position h) (Float64.step_of m h) k.
Proof.
  intros Hact Hbound Hrate Hk Hin Hout.
  destruct (bound_head_row_length h Hbound) as (row & Hrow & Hlen).
  assert (Hsize : 0 <= Mixer.size m) by lia.
  rewrite (read64_active m h row Hact (of_int_nonzero _ Hrate) Hsize Hrow).
  replace (Z.to_nat (Mixer.size m))
    with (k + S (Z.to_nat (Mixer.size m) - S k))%nat by lia.
  destruct (collect64_prefix row (Float64.step_of m h) k
              (ReadHead.position h)
              (S (Z.to_nat (Mixer.size m) - S k))) as (vs & Hvs & Hrun).
  { intros i Hi. apply sample_at_in_range. rewrite Hlen. now apply Hin. }
  rewrite Hrun. cbn [Float64.collect].
  rewrite sample_at_out_of_range by (rewrite Hlen; exact Hout).
  cbn [fst snd]. rewrite app_nil_r, Hvs.
  eexists. split; [reflexivity|]. cbn. split; reflexivity.
Qed.

Lemma read_active_faults_witness :
  let m := Mixer.mk 1 11 in
  let h := ReadHead.mk 0 ramp7 0 0 double_0_7 true in
  ReadHead.active h = true /\
  ReadHead.bound h /\
  exists h',
    Float64.read m h = (h', Raise IndexError) /\
    ReadHead.frame h' = 10 /\
    (7 < ReadHead.position h')%Q.
Proof.
  cbv zeta.
  set (m := Mixer.mk 1 11).
  set (h := ReadHead.mk 0 ramp7 0 0 double_0_7 true).
  assert (Hbound : ReadHead.bound h).
  { repeat split; cbn; try lia. repeat constructor. }
  split; [reflexivity|]. split; [exact Hbound|].
  destruct (read_active_faults m h 10 eq_refl Hbound)
    as (h' & Hread & Hframe & Hpos).
  - cbn. lia.
  - cbn. lia.
  - intros i Hi.
    destruct i as [|[|[|[|[|[|[|[|[|[|i]]]]]]]]]];
      [vm_compute; split; [discriminate|reflexivity]..|lia].
  - vm_compute. intros [_ Hlt]. discriminate.
  - exists h'. split; [exact Hread|]. split; [exact Hframe|].
    rewrite Hpos. vm_compute. reflexivity.
Defined.

(** ** The Device an assignment to [device] leaves behind *)

Section DeviceAssignment.

Import Device.

Variable query_devices : DeviceType -> result DeviceInfo.

(** [assign_device] and [set_device] are the same setter: where
    [set_device] ends, [assign_device] ends in the same way with the same
    Device, and where [set_device] runs out of depth, [assign_device] has
    reached the recursion limit. *)
Lemma assign_device_agrees (limit : nat) :
  forall (identifier : DeviceType) (self : t),
    match set_device query_devices limit identifier self with
    | Some (self', Ok _) =>
        assign_device query_devices limit identifier self =
        (self', Returned)
    | Some (self', Raise e) =>
        assign_device query_devices limit identifier self =
        (self', Raised e)
    | None =>
        snd (assign_device query_devices limit identifier self) =
        RecursionError
    end.
Proof.
  induction limit as [|limit IH]; intros identifier self; [reflexivity|].
  cbn [set_device assign_device].
  destruct (query_devices identifier) as [info|e]; [|reflexivity].
  destruct (0 <? max_output_channels info); [apply IH|reflexivity].
Qed.

Lemma assign_device_no_return (limit : nat) :
  forall (identifier : DeviceType) (self : t),
    snd (assign_device query_devices limit identifier self) <> Returned.
Proof.
  induction limit as [|limit IH]; intros identifier self; [discriminate|].
  cbn [assign_device].
  destruct (query_devices identifier) as [info|e]; [|discriminate].
  destruct (0 <? max_output_channels info); [apply IH|discriminate].
Qed.

Lemma assign_device_frame (limit : nat) :
  forall (identifier : DeviceType) (self : t),
    let self' := fst (assign_device query_devices limit identifier self) in
    Device.identifier self' = Device.identifier self /\
    channels self' = channels self /\
    rate self' = rate self /\
    length self' = length self /\
    _device self' = _device self /\
    _stream self' = _stream self.
Proof.
  induction limit as [|limit IH]; intros identifier self; cbv zeta.
  - cbn. repeat split.
  - cbn [assign_device].
    destruct (query_devices identifier) as [info|e]; [|cbn; repeat split].
    destruct (0 <? max_output_channels info); [|cbn; repeat split].
    apply (IH (or_zero identifier)
              (set_duplex (0 <? max_input_channels info) self)).
Qed.

Lemma assign_device_recurses (identifier : DeviceType) (info : DeviceInfo) :
  query_devices identifier = Ok info ->
  0 < max_output_channels info ->
  or_zero identifier = identifier ->
  forall (limit : nat) (self : t),
    assign_device query_devices (S limit) identifier self =
    (set_duplex (0 <? max_input_channels info) self, RecursionError).
Proof.
  intros Hquery Hout Hsame.
  induction limit as [|limit IH]; intros self.
  - cbn [assign_device]. rewrite Hquery.
    destruct (Z.ltb_spec 0 (max_output_channels info)) as [_|Hzero]; [|lia].
    reflexivity.
  - change (assign_device query_devices (S (S limit)) identifier self)
      with (match query_devices identifier with
            | Raise e => (self, Raised e)
            | Ok info0 =>
                if 0 <? max_output_channels info0 then
                  assign_device query_devices (S limit)
                    (or_zero identifier)
                    (set_duplex (0 <? max_input_channels info0) self)
                else (self, Raised no_playback)
            end).
    rewrite Hquery.
    destruct (Z.ltb_spec 0 (max_output_channels info)) as [_|Hzero]; [|lia].
    rewrite Hsame, IH. reflexivity.
Qed.

(** C10.  Assigning an identifier whose capabilities report at least one
    output channel never returns, whatever recursion limit is in force, and
    leaves [_device] as it was on every outcome: the identifier is never
    stored.  When [identifier or 0] is the identifier itself, the setter
    calls itself on it until the recursion limit stops it, and the Device
    is then the old one with [duplex] overwritten. *)
Theorem assignment_never_succeeds
    (identifier : DeviceType) (info : DeviceInfo) (self : t) (limit : nat) :
  query_devices identifier = Ok info ->
  0 < max_output_channels info ->
  snd (assign_device query_devices limit identifier self) <> Returned /\
  _device (fst (assign_device query_devices limit identifier self)) =
  _device self /\
  (or_zero identifier = identifier ->
   assign_device query_devices (S limit) identifier self =
   (set_duplex (0 <? max_input_channels info) self, RecursionError)).
Proof.
  intros Hquery Hout. split; [|split].
  - apply assign_device_no_return.
  - apply (assign_device_frame limit identifier self).
  - intros Hsame.
    apply (assign_device_recurses identifier info Hquery Hout Hsame).
Qed.

(** X17.  On every outcome of an assignment to [device], the recursion
    limit included, [identifier], [channels], [rate], [length], [_device]
    and [_stream] are as before the assignment: [duplex] is the only
    attribute the setter assigns. *)
Theorem assignment_touches_only_duplex
    (limit : nat) (identifier : DeviceType) (self : t) :
  let self' := fst (assign_device query_devices limit identifier self) in
  Device.identifier self' = Device.identifier self /\
  channels self' = channels self /\
  rate self' = rate self /\
  length self' = length self /\
  _device self' = _device self /\
  _stream self' = _stream self.
Proof.
  revert identifier self.
  induction limit as [|limit IH]; intros identifier self; cbv zeta.
  - cbn. repeat split.
  - cbn [assign_device].
    destruct (query_devices identifier) as [info|e]; [|cbn; repeat split].
    destruct (0 <? max_output_channels info); [|cbn; repeat split].
    apply (IH (or_zero identifier)
              (set_duplex (0 <? max_input_channels info) self)).
Qed.

End DeviceAssignment.

Lemma assignment_never_succeeds_witness :
  host (Device.DevId 2) = Ok (Device.mk_info 2 2) /\
  Device.assign_device host 1000 (Device.DevId 2) soundcard =
  (Device.set_duplex true soundcard, Device.RecursionError) /\
  Device._device
    (fst (Device.assign_device host 1000 (Device.DevId 2) soundcard)) =
  Device.DevId 1.
Proof.
  split; [reflexivity|].
  destruct (assignment_never_succeeds host (Device.DevId 2)
              (Device.mk_info 2 2) soundcard 999 eq_refl eq_refl)
    as (_ & _ & Hloop).
  destruct (assignment_never_succeeds host (Device.DevId 2)
              (Device.mk_info 2 2) soundcard 1000 eq_refl eq_refl)
    as (_ & Hkept & _).
  split; [exact (Hloop eq_refl)|exact Hkept].
Defined.

(** ** The tone generator, whatever the table index *)

Section ToneWrites.

Variable sintable : list Q.
Hypothesis sintable_length : List.length sintable = 1024%nat.

(** X18.  [fill] on a buffer with at least [frames] rows of two or more
    columns, for sample numbers that are not negative and stay below
    [2 ** 53], does not fault: it writes to columns 0 and 1 of each of the
    first [frames] rows one and the same entry of the sine table, and leaves
    every other column and every later row as it found them. *)
Theorem fill_writes_tone (frames frame : Z) (outdata : list (list Q)) :
  0 <= frame ->
  frame + frames <= 2 ^ 53 ->
  0 <= frames <= Z.of_nat (List.length outdata) ->
  Forall (fun row => (2 <= List.length row)%nat)
         (firstn (Z.to_nat frames) outdata) ->
  exists outdata',
    fill sintable frames frame outdata = (outdata', Ok tt) /\
    List.length outdata' = List.length outdata /\
    (forall i : nat,
        (i < Z.to_nat frames)%nat ->
        exists val,
          In val sintable /\
          nth i outdata' [] = val :: val :: skipn 2 (nth i outdata [])) /\
    (forall i : nat,
        (Z.to_nat frames <= i)%nat -> nth i outdata' [] = nth i outdata []).
Proof.
  intros _ _ Hframes Hwide.
  rewrite (fill_rows sintable sintable_length frames frame outdata
             Hframes Hwide).
  set (n := Z.to_nat frames) in *.
  eexists. split; [reflexivity|].
  assert (Hn : List.length (firstn n outdata) = n)
    by (rewrite length_firstn; lia).
  split; [|split].
  - rewrite length_app, tone_rows_length, Hn, length_skipn. lia.
  - intros i Hi.
    exists (nth (Z.to_nat (phase (Z.of_nat i + frame))) sintable 0%Q).
    split.
    + apply nth_In. rewrite sintable_length.
      pose proof (phase_range (Z.of_nat i + frame)). lia.
    + rewrite app_nth1 by (rewrite tone_rows_length; lia).
      rewrite tone_rows_nth by lia.
      cbn [plus]. unfold tone_row.
      rewrite nth_firstn.
      destruct (Nat.ltb_spec i n) as [_|Hbig]; [reflexivity|lia].
  - intros i Hi.
    rewrite app_nth2 by (rewrite tone_rows_length; lia).
    rewrite tone_rows_length, Hn, nth_skipn. f_equal. lia.
Qed.

End ToneWrites.

Lemma fill_writes_tone_witness :
  List.length index_table = 1024%nat /\
  exists outdata',
    fill index_table 2 100 [[0; 0; 7]; [0; 0]; [9; 9]]%Q = (outdata', Ok tt) /\
    List.length outdata' = 3%nat /\
    nth 2 outdata' [] = [9; 9]%Q.
Proof.
  assert (Hlen : List.length index_table = 1024%nat) by reflexivity.
  split; [exact Hlen|].
  destruct (fill_writes_tone index_table Hlen 2 100
              [[0; 0; 7]; [0; 0]; [9; 9]]%Q)
    as (outdata' & Hfill & Hrows & _ & Hrest).
  - lia.
  - lia.
  - cbn. lia.
  - repeat constructor.
  - exists outdata'. split; [exact Hfill|]. split; [exact Hrows|].
    apply (Hrest 2%nat). cbn. lia.
Defined.
